(** * Stock reconciliation: matcher, sync and statistics

    A shallow embedding of the stock logic of the dashboard:
    [normalizeProductName], [findMatchingProduct],
    [autoSyncProductsFromSales] and [recalculateProductQuantities] of the
    [useFirebaseData] hook, and [stockStats] of the stock module.

    Conventions of the model.
    - A JavaScript string is a list of 8-bit characters.  The model follows
      the code on ASCII text; a character above 127 is a symbol (not [\w],
      not [\s], left alone by [toLowerCase]).
    - Quantities, stock levels and counts are integers ([Z]).
    - A price is the rational ([Q]) that a finite JavaScript number denotes.
      Every operation on prices is the binary64 one: the exact result
      rounded to the nearest binary64 number ([JsNumber]).  [NaN] and the
      infinities are outside the model.
    - A [Date] is its time value in milliseconds ([Z]).
    - A JavaScript [Map] is an association list in insertion order. *)

From Stdlib Require Import Ascii String.
From Stdlib Require Import List Bool Arith ZArith QArith Qround Qabs Qreduction.
From Stdlib Require Import Qpower.
From Stdlib Require Import Lia Lqa.
Import ListNotations.

Set Implicit Arguments.

(** ** JavaScript strings *)

Module JsString.

Definition t := list ascii.

(** Literal: [lit "abc"]. *)
Definition lit (s : string) : t := list_ascii_of_string s.

Definition code (c : ascii) : nat := nat_of_ascii c.

Definition between (lo hi n : nat) : bool := (lo <=? n) && (n <=? hi).

(** [\s] on ASCII: tab, line feed, vertical tab, form feed, carriage
    return and space. *)
Definition isSpace (c : ascii) : bool :=
  between 9 13 (code c) || (code c =? 32).

(** [\w]: [A-Za-z0-9_]. *)
Definition isWord (c : ascii) : bool :=
  between 48 57 (code c) || between 65 90 (code c)
  || between 97 122 (code c) || (code c =? 95).

Definition lowerChar (c : ascii) : ascii :=
  if between 65 90 (code c) then ascii_of_nat (code c + 32) else c.

(** [s.toLowerCase()] *)
Definition toLowerCase (s : t) : t := map lowerChar s.

Fixpoint trimStart (s : t) : t :=
  match s with
  | c :: r => if isSpace c then trimStart r else s
  | [] => []
  end.

Definition trimEnd (s : t) : t := rev (trimStart (rev s)).

(** [s.trim()] *)
Definition trim (s : t) : t := trimEnd (trimStart s).

Fixpoint eqb (a b : t) : bool :=
  match a, b with
  | [], [] => true
  | x :: a', y :: b' => Ascii.eqb x y && eqb a' b'
  | _, _ => false
  end.

(** [s.startsWith(p)] *)
Fixpoint startsWith (s p : t) {struct p} : bool :=
  match p, s with
  | [], _ => true
  | x :: p', y :: s' => Ascii.eqb x y && startsWith s' p'
  | _ :: _, [] => false
  end.

(** [s.includes(p)]: [p] occurs in [s] as a contiguous substring. *)
Fixpoint includes (s p : t) : bool :=
  startsWith s p ||
  match s with
  | [] => false
  | _ :: s' => includes s' p
  end.

(** [s.split(sep)] for a one-character separator: never empty, and an
    empty piece for every pair of adjacent separators. *)
Fixpoint split (sep : ascii) (s : t) : list t :=
  match s with
  | [] => [[]]
  | c :: r =>
      if Ascii.eqb c sep then [] :: split sep r
      else match split sep r with
           | w :: ws => (c :: w) :: ws
           | [] => [[c]]
           end
  end.

(** [s.replace(/\s+/g, ' ')]: every maximal run of white space becomes one
    space.  [inRun] tells that the previous character was white space. *)
Fixpoint collapseSpaces (inRun : bool) (s : t) : t :=
  match s with
  | [] => []
  | c :: r =>
      if isSpace c
      then (if inRun then collapseSpaces true r
            else " "%char :: collapseSpaces true r)
      else c :: collapseSpaces false r
  end.

(** [s.replace(/[^\w\s]/g, '')] *)
Definition stripSpecial (s : t) : t :=
  filter (fun c => isWord c || isSpace c) s.

(** [\b] between a previous character (word or not) and the rest. *)
Definition wordBoundary (prevWord : bool) (rest : t) : bool :=
  xorb prevWord match rest with [] => false | c :: _ => isWord c end.

Fixpoint dropPrefix (p s : t) {struct p} : option t :=
  match p, s with
  | [], _ => Some s
  | x :: p', y :: s' => if Ascii.eqb x y then dropPrefix p' s' else None
  | _ :: _, [] => None
  end.

(** One alternative [<digits>s?] followed by [\b]: the length matched.
    [s?] is greedy and gives the [s] back when [\b] fails after it. *)
Definition matchAlt (digits s : t) : option nat :=
  match dropPrefix digits s with
  | None => None
  | Some r1 =>
      match r1 with
      | c :: r2 =>
          if Ascii.eqb c "s"%char && wordBoundary true r2
          then Some (S (length digits))
          else if wordBoundary true r1 then Some (length digits) else None
      | [] => if wordBoundary true r1 then Some (length digits) else None
      end
  end.

(** [/\b(100s?|20s?|25s?)\b/] tried at one position. *)
Definition matchNoise (prevWord : bool) (s : t) : option nat :=
  if wordBoundary prevWord s then
    match matchAlt (lit "100") s with
    | Some n => Some n
    | None =>
        match matchAlt (lit "20") s with
        | Some n => Some n
        | None => matchAlt (lit "25") s
        end
    end
  else None.

(** [s.replace(/\b(100s?|20s?|25s?)\b/g, '')]: a left-to-right scan;
    [skip] characters of the current match are still to be dropped. *)
Fixpoint stripNoise (prevWord : bool) (skip : nat) (s : t) : t :=
  match s with
  | [] => []
  | c :: r =>
      match skip with
      | S k => stripNoise (isWord c) k r
      | O =>
          match matchNoise prevWord s with
          | Some (S k) => stripNoise (isWord c) k r
          | _ => c :: stripNoise (isWord c) 0 r
          end
      end
  end.

End JsString.

Abbreviation jsstring := JsString.t.

(** ** Name normalizer *)

(** [normalizeProductName]: lower-case, trim, collapse white space, strip
    special characters, strip the packaging-size tokens, trim. *)
Definition normalizeProductName (name : jsstring) : jsstring :=
  JsString.trim
    (JsString.stripNoise false 0
       (JsString.stripSpecial
          (JsString.collapseSpaces false
             (JsString.trim (JsString.toLowerCase name))))).

(** [category.toLowerCase().trim()] *)
Definition normalizeCategory (category : jsstring) : jsstring :=
  JsString.trim (JsString.toLowerCase category).

Example normalize_coca :
  normalizeProductName (JsString.lit "Coca Cola 100S") = JsString.lit "coca cola".
Proof. reflexivity. Qed.

(** ** JavaScript numbers *)

(** The arithmetic of finite binary64 numbers, on the rationals they denote:
    an operation computes the exact result and rounds it to the nearest
    binary64 number, a tie to the even significand.  A result beyond the
    binary64 range ([Infinity] in the code) is outside the model. *)
Module JsNumber.

(** [2^e] for any integer [e]. *)
Definition pow2 (e : Z) : Q := 2 ^ e.

(** The nearest integer, a tie to the even one. *)
Definition roundHalfEven (y : Q) : Z :=
  let f := Qfloor y in
  match Qcompare (y - inject_Z f) (1 # 2) with
  | Lt => f
  | Gt => (f + 1)%Z
  | Eq => if Z.even f then f else (f + 1)%Z
  end.

(** [floor (log2 x)] for a positive [x]. *)
Definition log2Floor (x : Q) : Z :=
  let k := (Z.log2 (Qnum x) - Z.log2 (Zpos (Qden x)))%Z in
  if Qle_bool (pow2 k) x then k else (k - 1)%Z.

(** The exponent of the last place of a positive [x]: a significand of 53
    bits, and no exponent below that of the subnormal numbers, -1074. *)
Definition lastPlace (x : Q) : Z := Z.max (log2Floor x - 52) (-1074).

Definition roundPositive (x : Q) : Q :=
  let e := lastPlace x in
  Qred (inject_Z (roundHalfEven (x / pow2 e)) * pow2 e).

(** The binary64 number nearest to [x]. *)
Definition round (x : Q) : Q :=
  match Qnum x with
  | Z0 => 0
  | Zpos _ => roundPositive x
  | Zneg _ => - roundPositive (- x)
  end.

(** [a + b], [a * b] and, for a divisor that is not zero, [a / b] on
    numbers. *)
Definition add (a b : Q) : Q := round (a + b).
Definition mul (a b : Q) : Q := round (a * b).
Definition div (a b : Q) : Q := round (a / b).

(** [Math.round(y)]: the nearest integer, a tie to the larger one. *)
Definition mathRound (y : Q) : Z := Qfloor (y + (1 # 2)).

(** A decimal literal of the code or of the data, such as [10.01]. *)
Definition literal (x : Q) : Q := round x.

(** A binary64 number, the upper end of the range aside: a significand of
    at most 53 bits times a power of 2 that is at least [2^-1074]. *)
Definition Binary64 (d : Q) : Prop :=
  exists m e : Z,
    (Z.abs m <= 2 ^ 53)%Z /\ (-1074 <= e)%Z /\ d == inject_Z m * pow2 e.

End JsNumber.

(** ** Data model *)

(** [RegisterSale]: one point-of-sale line. *)
Record RegisterSale := {
  sale_id : jsstring;
  sale_product : jsstring;
  sale_category : jsstring;
  sale_register : jsstring;
  sale_date : Z;
  sale_seller : jsstring;
  sale_quantity : Z;
  sale_price : Q;
  sale_total : Q
}.

(** [Product]: one catalog entry.  [initialStockDate] is kept as a day
    number; [quantitySold] and [description] are optional in the code. *)
Record Product := {
  id : jsstring;
  name : jsstring;
  category : jsstring;
  price : Q;
  stock : Z;
  initialStock : Z;
  initialStockDate : option Z;
  quantitySold : option Z;
  minStock : Z;
  description : option jsstring
}.

(** ** Product matcher *)

(** [Math.ceil(n * 0.7)] for an array length [n].  The double nearest to 0.7
    lies below 0.7 by less than 2^-54, so for every length below 2^32 the
    product lies in the half-open unit interval that ends at 7n/10 or, when
    10 divides n, rounds to 7n/10 or to the double just below it: the
    ceiling is the integer ceiling of 7n/10 in both cases. *)
Definition ceil70 (n : nat) : nat := (7 * n + 9) / 10.

(** [name.split(' ').filter(word => word.length > 2)] *)
Definition mainWords (normalizedName : jsstring) : list jsstring :=
  filter (fun word => 2 <? length word) (JsString.split " " normalizedName).

(** Tier 1, the callback of the first [find]. *)
Definition exactMatch (normalizedSaleName normalizedSaleCategory : jsstring)
    (product : Product) : bool :=
  JsString.eqb (normalizeProductName (name product)) normalizedSaleName
  && JsString.eqb (normalizeCategory (category product)) normalizedSaleCategory.

(** Tier 2, the callback of the second [find]. *)
Definition partialMatch (normalizedSaleName normalizedSaleCategory : jsstring)
    (product : Product) : bool :=
  let normalizedProductName := normalizeProductName (name product) in
  let normalizedProductCategory := normalizeCategory (category product) in
  JsString.eqb normalizedProductCategory normalizedSaleCategory
  && (JsString.includes normalizedProductName normalizedSaleName
      || JsString.includes normalizedSaleName normalizedProductName).

(** The words of the sale that some word of the product contains or is
    contained in. *)
Definition matchingWords (saleWords productWords : list jsstring)
    : list jsstring :=
  filter (fun saleWord =>
            existsb (fun productWord =>
                       JsString.includes productWord saleWord
                       || JsString.includes saleWord productWord)
                    productWords)
         saleWords.

(** Tier 3, the callback of the third [find]. *)
Definition fuzzyMatch (normalizedSaleName normalizedSaleCategory : jsstring)
    (product : Product) : bool :=
  let normalizedProductName := normalizeProductName (name product) in
  let normalizedProductCategory := normalizeCategory (category product) in
  if negb (JsString.eqb normalizedProductCategory normalizedSaleCategory)
  then false
  else
    let saleWords := mainWords normalizedSaleName in
    let productWords := mainWords normalizedProductName in
    ceil70 (length saleWords)
    <=? length (matchingWords saleWords productWords).

(** [findMatchingProduct(saleName, saleCategory, products)]: three [find]
    passes, each returning at once when it finds a product. *)
Definition findMatchingProduct (saleName saleCategory : jsstring)
    (products : list Product) : option Product :=
  let normalizedSaleName := normalizeProductName saleName in
  let normalizedSaleCategory := normalizeCategory saleCategory in
  match find (exactMatch normalizedSaleName normalizedSaleCategory) products with
  | Some m => Some m
  | None =>
      match find (partialMatch normalizedSaleName normalizedSaleCategory) products with
      | Some m => Some m
      | None => find (fuzzyMatch normalizedSaleName normalizedSaleCategory) products
      end
  end.

(** The tier that produced a match. *)
Inductive Tier := Exact | Containment | Fuzzy.

(** [findMatchingProduct] instrumented with the tier that answered; the rule
    chain is generic in the three predicates, which are consulted lazily. *)
Definition firstTier (tier1 tier2 tier3 : Product -> bool)
    (products : list Product) : option (Tier * Product) :=
  match find tier1 products with
  | Some m => Some (Exact, m)
  | None =>
      match find tier2 products with
      | Some m => Some (Containment, m)
      | None =>
          match find tier3 products with
          | Some m => Some (Fuzzy, m)
          | None => None
          end
      end
  end.

Definition findMatchingProductTier (saleName saleCategory : jsstring)
    (products : list Product) : option (Tier * Product) :=
  let n := normalizeProductName saleName in
  let c := normalizeCategory saleCategory in
  firstTier (exactMatch n c) (partialMatch n c) (fuzzyMatch n c) products.

(** ** Stock reconciliation *)

(** The result of [calculateStockFinal] (the shape of the
    [StockCalculationCache] interface, without the warning text). *)
Record StockCalculation := {
  finalStock : Z;
  validSales : list RegisterSale;
  ignoredSales : list RegisterSale;
  hasInconsistentStock : bool
}.

(** [sales.reduce((sum, sale) => sum + sale.quantity, 0)] *)
Definition sumQuantity (sales : list RegisterSale) : Z :=
  fold_left (fun sum sale => sum + sale_quantity sale)%Z sales 0%Z.

(** Modelled from the spec: the day of a time value, for the comparison at
    day resolution of the missing [utils/calculateStockFinal]. *)
Definition dayOf (time : Z) : Z := (time / 86400000)%Z.

(** Modelled from the spec: the matching step of the reconciliation (the
    module [utils/calculateStockFinal] is missing).  A sale matches the
    product when the matcher resolves it against that product. *)
Definition saleMatchesProduct (product : Product) (sale : RegisterSale) : bool :=
  match findMatchingProduct (sale_product sale) (sale_category sale) [product] with
  | Some _ => true
  | None => false
  end.

(** Modelled from the spec: [calculateStockFinal] of the missing module
    [utils/calculateStockFinal].  The matched sales are split at the day of
    [initialStockDate]; the final stock is the initial stock minus the
    attributable quantities, not clamped; the stock is inconsistent when the
    result is negative or some sale was ignored. *)
Definition calculateStockFinal (product : Product) (allSales : list RegisterSale)
    : StockCalculation :=
  let matched := filter (saleMatchesProduct product) allSales in
  let attributable :=
    match initialStockDate product with
    | None => matched
    | Some day => filter (fun sale => (day <=? dayOf (sale_date sale))%Z) matched
    end in
  let ignored :=
    match initialStockDate product with
    | None => []
    | Some day => filter (fun sale => (dayOf (sale_date sale) <? day)%Z) matched
    end in
  let final := (initialStock product - sumQuantity attributable)%Z in
  {| finalStock := final;
     validSales := attributable;
     ignoredSales := ignored;
     hasInconsistentStock :=
       (final <? 0)%Z || match ignored with [] => false | _ :: _ => true end |}.

(** The body of the [map] callback of [recalculateProductQuantities]. *)
Definition recalculateProduct (registerSales : list RegisterSale)
    (product : Product) : Product :=
  let calculation := calculateStockFinal product registerSales in
  let initialStock' :=
    if (initialStock product =? 0)%Z
    then (stock product
          + match quantitySold product with Some q => q | None => 0 end)%Z
    else initialStock product in
  let totalQuantitySold := sumQuantity (validSales calculation) in
  {| id := id product;
     name := name product;
     category := category product;
     price := price product;
     stock := finalStock calculation;
     initialStock := initialStock';
     initialStockDate := initialStockDate product;
     quantitySold := Some totalQuantitySold;
     minStock := minStock product;
     description := description product |}.

(** [recalculateProductQuantities]: the product list put into the state. *)
Definition recalculateProductQuantities (registerSales : list RegisterSale)
    (products : list Product) : list Product :=
  map (recalculateProduct registerSales) products.

(** ** JavaScript maps keyed by strings *)

Module JsMap.
Section Ops.
Variable V : Type.

Definition t := list (jsstring * V).

(** [m.get(k)] *)
Fixpoint get (k : jsstring) (m : t) : option V :=
  match m with
  | [] => None
  | (k', v) :: r => if JsString.eqb k k' then Some v else get k r
  end.

(** [m.set(k, v)]: an existing key keeps its place. *)
Fixpoint set (k : jsstring) (v : V) (m : t) : t :=
  match m with
  | [] => [(k, v)]
  | (k', v') :: r =>
      if JsString.eqb k k' then (k', v) :: r else (k', v') :: set k v r
  end.

(** [m.size] *)
Definition size (m : t) : nat := length m.
End Ops.
End JsMap.

(** ** Stock statistics *)

(** The statistics of the stock table that reads the calculation cache. *)
Module StockView.

Record StockStats := {
  totalProducts : nat;
  totalStock : Z;
  totalValue : Q;
  outOfStock : nat;
  lowStock : nat
}.

(** [stockCalculationCache]: one calculation per product id. *)
Definition stockCalculationCache (products : list Product)
    (registerSales : list RegisterSale) : JsMap.t StockCalculation :=
  fold_left
    (fun cache product =>
       JsMap.set (id product) (calculateStockFinal product registerSales) cache)
    products [].

(** [stockCalculation?.finalStock ?? product.stock] *)
Definition finalStockOf (cache : JsMap.t StockCalculation) (product : Product) : Z :=
  match JsMap.get (id product) cache with
  | Some stockCalculation => finalStock stockCalculation
  | None => stock product
  end.

(** One turn of the [forEach] of [stockStats]. *)
Definition countProduct (cache : JsMap.t StockCalculation)
    (acc : StockStats) (product : Product) : StockStats :=
  let finalStock := finalStockOf cache product in
  {| totalProducts := totalProducts acc;
     totalStock := (totalStock acc + finalStock)%Z;
     totalValue :=
       JsNumber.add (totalValue acc)
                    (JsNumber.mul (inject_Z finalStock) (price product));
     outOfStock :=
       if (finalStock =? 0)%Z then S (outOfStock acc) else outOfStock acc;
     lowStock :=
       if (finalStock =? 0)%Z then lowStock acc
       else if (finalStock <=? minStock product)%Z then S (lowStock acc)
            else lowStock acc |}.

(** What the [else if] of [stockStats] counts: every product whose final
    stock is not zero and at most [minStock], negative ones included. *)
Definition countedLow (cache : JsMap.t StockCalculation) (product : Product)
    : bool :=
  negb (finalStockOf cache product =? 0)%Z
  && (finalStockOf cache product <=? minStock product)%Z.

(** [stockStats] *)
Definition stockStats (products : list Product)
    (cache : JsMap.t StockCalculation) : StockStats :=
  fold_left (countProduct cache) products
    {| totalProducts := length products;
       totalStock := 0; totalValue := 0; outOfStock := 0; lowStock := 0 |}.

(** The statistics shown for a product list and a sale list. *)
Definition aggregate (products : list Product)
    (registerSales : list RegisterSale) : StockStats :=
  stockStats products (stockCalculationCache products registerSales).

(** The [low-stock] status filter of the same table. *)
Definition lowStockFilter (finalStock : Z) (product : Product) : bool :=
  (0 <? finalStock)%Z && (finalStock <=? minStock product)%Z.

End StockView.

(** The statistics of [StockModule.tsx], on the stored [stock] field. *)
Module StockModule.

Record StockStats := {
  outOfStock : nat;
  lowStock : nat;
  totalStock : Z;
  totalValue : Q;
  totalSold : Z;
  totalSoldValue : Q
}.

Definition sold (p : Product) : Z :=
  match quantitySold p with Some q => q | None => 0%Z end.

Definition stockStats (products : list Product) : StockStats :=
  {| outOfStock := length (filter (fun p => (stock p =? 0)%Z) products);
     lowStock :=
       length (filter (fun p => (0 <? stock p)%Z && (stock p <=? minStock p)%Z)
                      products);
     totalStock := fold_left (fun sum p => sum + stock p)%Z products 0%Z;
     totalValue :=
       fold_left (fun sum p =>
                    JsNumber.add sum (JsNumber.mul (inject_Z (stock p)) (price p)))
                 products 0;
     totalSold := fold_left (fun sum p => sum + sold p)%Z products 0%Z;
     totalSoldValue :=
       fold_left (fun sum p =>
                    JsNumber.add sum (JsNumber.mul (inject_Z (sold p)) (price p)))
                 products 0 |}.

End StockModule.

(** What the specification asks of the two counters, for a product list and
    the final stock of each product. *)
Definition countOutOfStock (final : Product -> Z) (products : list Product) : nat :=
  length (filter (fun p => (final p =? 0)%Z) products).

Definition countLowStock (final : Product -> Z) (products : list Product) : nat :=
  length (filter (fun p => (0 <? final p)%Z && (final p <=? minStock p)%Z) products).

(** ** Sales-to-catalog sync *)

(** The value kept per key in [salesProductMap]. *)
Record SalesData := {
  sd_name : jsstring;
  sd_category : jsstring;
  totalQuantitySold : Z;
  averagePrice : Q;
  firstSaleDate : Z;
  lastSaleDate : Z;
  salesCount : Z
}.

(** [`${sale.product.trim().toLowerCase()}|${sale.category.trim().toLowerCase()}`] *)
Definition productKey (sale : RegisterSale) : jsstring :=
  JsString.toLowerCase (JsString.trim (sale_product sale))
  ++ JsString.lit "|"
  ++ JsString.toLowerCase (JsString.trim (sale_category sale)).

(** The [else] branch of the grouping loop: the first sale of a key. *)
Definition firstSale (sale : RegisterSale) : SalesData :=
  {| sd_name := JsString.trim (sale_product sale);
     sd_category := JsString.trim (sale_category sale);
     totalQuantitySold := sale_quantity sale;
     averagePrice := sale_price sale;
     firstSaleDate := sale_date sale;
     lastSaleDate := sale_date sale;
     salesCount := 1 |}.

(** The [then] branch: one more sale folded into an existing entry. *)
Definition foldSale (existing : SalesData) (sale : RegisterSale) : SalesData :=
  {| sd_name := sd_name existing;
     sd_category := sd_category existing;
     totalQuantitySold := (totalQuantitySold existing + sale_quantity sale)%Z;
     averagePrice :=
       JsNumber.div
         (JsNumber.add
            (JsNumber.mul (averagePrice existing) (inject_Z (salesCount existing)))
            (sale_price sale))
         (inject_Z (salesCount existing + 1));
     firstSaleDate :=
       if (sale_date sale <? firstSaleDate existing)%Z
       then sale_date sale else firstSaleDate existing;
     lastSaleDate :=
       if (lastSaleDate existing <? sale_date sale)%Z
       then sale_date sale else lastSaleDate existing;
     salesCount := (salesCount existing + 1)%Z |}.

(** One turn of [registerSales.forEach]. *)
Definition addSale (salesProductMap : JsMap.t SalesData) (sale : RegisterSale)
    : JsMap.t SalesData :=
  let key := productKey sale in
  match JsMap.get key salesProductMap with
  | Some existing => JsMap.set key (foldSale existing sale) salesProductMap
  | None => JsMap.set key (firstSale sale) salesProductMap
  end.

(** Step 1 of the sync: [salesProductMap] after the loop. *)
Definition buildSalesProductMap (registerSales : list RegisterSale)
    : JsMap.t SalesData :=
  fold_left addSale registerSales [].

(** Step 2: the entries that no catalog product matches, in map order. *)
Definition missingProducts (registerSales : list RegisterSale)
    (products : list Product) : list (jsstring * SalesData) :=
  filter (fun entry =>
            match findMatchingProduct (sd_name (snd entry))
                                      (sd_category (snd entry)) products with
            | Some _ => false
            | None => true
            end)
         (buildSalesProductMap registerSales).

(** What the sync takes from outside: the id Firestore gives to the n-th new
    document, the text of a description (it formats a date for a locale) and
    whether the commit of the n-th batch succeeds. *)
Record SyncEnv := {
  docId : nat -> jsstring;
  describe : Z -> Z -> jsstring;
  commitOk : nat -> bool
}.

(** [Math.ceil(q / 10)] for an integer [q]. *)
Definition ceilDiv10 (q : Z) : Z := (- ((- q) / 10))%Z.

(** [Math.round(x * 100) / 100] *)
Definition round2 (x : Q) : Q :=
  JsNumber.div (inject_Z (JsNumber.mathRound (JsNumber.mul x 100))) 100.

(** The product written for one missing entry; [n] numbers the document. *)
Definition synthesize (env : SyncEnv) (n : nat) (salesData : SalesData) : Product :=
  let estimatedInitialStock := Z.max (totalQuantitySold salesData) 10 in
  let currentStock := 0%Z in
  let minStock' := Z.max (ceilDiv10 (totalQuantitySold salesData)) 5 in
  {| id := docId env n;
     name := sd_name salesData;
     category := sd_category salesData;
     price := round2 (averagePrice salesData);
     stock := currentStock;
     initialStock := estimatedInitialStock;
     initialStockDate := None;
     quantitySold := Some (totalQuantitySold salesData);
     minStock := minStock';
     description :=
       Some (describe env (salesCount salesData) (firstSaleDate salesData)) |}.

(** [batch.forEach]: the products of one batch, numbered from [n]. *)
Fixpoint synthesizeFrom (env : SyncEnv) (n : nat)
    (batch : list (jsstring * SalesData)) : list Product :=
  match batch with
  | [] => []
  | entry :: rest => synthesize env n (snd entry) :: synthesizeFrom env (S n) rest
  end.

(** The products of the entries from index [i] on. *)
Definition productsFrom (env : SyncEnv) (missing : list (jsstring * SalesData))
    (i : nat) : list Product :=
  synthesizeFrom env i (skipn i missing).

Definition BATCH_SIZE : nat := 200.

(** The property names that the object literal [{}] inherits from
    [Object.prototype]. *)
Definition inheritedNames : list jsstring :=
  [JsString.lit "constructor"; JsString.lit "hasOwnProperty";
   JsString.lit "isPrototypeOf"; JsString.lit "propertyIsEnumerable";
   JsString.lit "toLocaleString"; JsString.lit "toString";
   JsString.lit "valueOf"; JsString.lit "__proto__";
   JsString.lit "__defineGetter__"; JsString.lit "__defineSetter__";
   JsString.lit "__lookupGetter__"; JsString.lit "__lookupSetter__"].

Definition inheritedName (key : jsstring) : bool :=
  existsb (JsString.eqb key) inheritedNames.

(** The value of an own property of the [categoryBreakdown] object: a
    number, or the text of an inherited member followed by [ones] digits
    [1]. *)
Inductive CategoryCount :=
| Counted (n : nat)
| NotCounted (ones : nat).

(** [acc[key] = (acc[key] || 0) + 1] on the own properties of an object that
    starts as [{}].  A missing own property reads as the inherited member
    when the key is an inherited name; a member is truthy, and adding 1 to it
    gives a text.  An assignment to [__proto__] of a text changes nothing. *)
Definition countKey (key : jsstring) (acc : JsMap.t CategoryCount)
    : JsMap.t CategoryCount :=
  match JsMap.get key acc with
  | Some (Counted n) => JsMap.set key (Counted (n + 1)) acc
  | Some (NotCounted ones) => JsMap.set key (NotCounted (ones + 1)) acc
  | None =>
      if JsString.eqb key (JsString.lit "__proto__") then acc
      else if inheritedName key then JsMap.set key (NotCounted 1) acc
      else JsMap.set key (Counted 1) acc
  end.

(** The three summaries: no sale at all; every sold product is in the
    catalog ([Tous les produits des ventes (n) existent deja dans le stock.
    Aucune synchronisation necessaire.]); the report of [generateSyncSummary]
    with the numbers it prints. *)
Inductive SyncSummary :=
| NoSalesData
| NothingToSync (salesProducts : nat)
| SyncReport (totalSalesProducts : nat) (createdCount : nat)
             (soldQuantity : Z) (meanPrice : Q)
             (categoryBreakdown : JsMap.t CategoryCount).

(** The end of a call: a returned object or a thrown [Error]. *)
Inductive SyncResult :=
| Returned (created : list Product) (summary : SyncSummary)
| Thrown (message : jsstring).

(** [generateSyncSummary(createdProducts, totalSalesProducts)]: the numbers
    of the report.  [categoryBreakdown] maps the names of the own properties
    of the object that the [reduce] fills to their values; the report prints
    one line for each.  The order of the lines ([Object.entries], then a
    sort by count) is not part of the model. *)
Definition generateSyncSummary (createdProducts : list Product)
    (totalSalesProducts : nat) : SyncSummary :=
  let categoryBreakdown :=
    fold_left (fun acc product => countKey (category product) acc)
              createdProducts [] in
  let totalQuantitySold :=
    fold_left (fun sum product => sum + StockModule.sold product)%Z
              createdProducts 0%Z in
  let averagePrice :=
    match createdProducts with
    | [] => 0
    | _ :: _ =>
        JsNumber.div
          (fold_left (fun sum product => JsNumber.add sum (price product))
                     createdProducts 0)
          (inject_Z (Z.of_nat (length createdProducts)))
    end in
  SyncReport totalSalesProducts (length createdProducts)
             totalQuantitySold averagePrice categoryBreakdown.

Definition syncError : jsstring :=
  JsString.lit "Erreur lors de la synchronisation automatique des produits".

(** The [for] loop of step 3 from index [i], in batches of [size]: every
    batch is built, pushed to [createdProducts] and committed; a failed
    commit leaves the [try] block.  [store] is the content of the products
    collection.  The result is the list of created products, or [None] after
    a failed commit.  The loop runs at most [length missing] times. *)
Fixpoint commitBatches (env : SyncEnv) (size fuel i : nat)
    (missing : list (jsstring * SalesData))
    (createdProducts store : list Product)
    : option (list Product) * list Product :=
  match fuel with
  | O => (Some createdProducts, store)
  | S fuel' =>
      if i <? length missing then
        let batch := firstn size (skipn i missing) in
        let written := synthesizeFrom env i batch in
        if commitOk env (i / size)
        then commitBatches env size fuel' (i + size) missing
                           (createdProducts ++ written) (store ++ written)
        else (None, store)
      else (Some createdProducts, store)
  end.

(** [autoSyncProductsFromSales]: the result of the call and the products
    collection after it. *)
Definition autoSyncProductsFromSales (env : SyncEnv)
    (registerSales : list RegisterSale) (products store : list Product)
    : SyncResult * list Product :=
  match registerSales with
  | [] => (Returned [] NoSalesData, store)
  | _ :: _ =>
      let salesProductMap := buildSalesProductMap registerSales in
      let missing := missingProducts registerSales products in
      match missing with
      | [] => (Returned [] (NothingToSync (JsMap.size salesProductMap)), store)
      | _ :: _ =>
          match commitBatches env BATCH_SIZE (length missing) 0 missing [] store with
          | (Some createdProducts, store') =>
              (Returned createdProducts
                        (generateSyncSummary createdProducts
                                             (JsMap.size salesProductMap)),
               store')
          | (None, store') => (Thrown syncError, store')
          end
      end
  end.

(** ** Words of a name, as the specification puts it *)

(** The category test shared by the three tiers. *)
Definition sameCategory (saleCategory : jsstring) (product : Product) : bool :=
  JsString.eqb (normalizeCategory (category product))
               (normalizeCategory saleCategory).

(** The pieces of [s] between the characters that satisfy [sep]. *)
Fixpoint splitOn (sep : ascii -> bool) (s : jsstring) : list jsstring :=
  match s with
  | [] => [[]]
  | c :: r =>
      if sep c then [] :: splitOn sep r
      else match splitOn sep r with
           | w :: ws => (c :: w) :: ws
           | [] => [[c]]
           end
  end.

(** Split on white space, keep the tokens longer than 2 characters. *)
Definition tokensLongerThan2 (normalizedName : jsstring) : list jsstring :=
  filter (fun token => 2 <? length token) (splitOn JsString.isSpace normalizedName).

(** Every white-space character of the string is a space. *)
Definition SpacesOnly (s : jsstring) : Prop :=
  Forall (fun c => JsString.isSpace c = true -> c = " "%char) s.

(** [p] occurs inside [s]. *)
Definition Substring (p s : jsstring) : Prop :=
  exists before after, s = before ++ p ++ after.

(** Some catalog token contains the token or is contained in it. *)
Definition overlapsSome (catalogTokens : list jsstring) (token : jsstring) : bool :=
  existsb (fun c => JsString.includes c token || JsString.includes token c)
          catalogTokens.

(** The incremental mean of a price list: the mean so far is weighted by
    the number of prices folded in so far, in the arithmetic of numbers. *)
Fixpoint runningMean (mean : Q) (count : Z) (prices : list Q) : Q :=
  match prices with
  | [] => mean
  | p :: rest =>
      runningMean
        (JsNumber.div (JsNumber.add (JsNumber.mul mean (inject_Z count)) p)
                      (inject_Z (count + 1)))
        (count + 1) rest
  end.

Definition incrementalMean (prices : list Q) : Q :=
  match prices with
  | [] => 0
  | p :: rest => runningMean p 1 rest
  end.

(** The entry that the sales of one key fold into. *)
Definition groupOf (sales : list RegisterSale) : option SalesData :=
  match sales with
  | [] => None
  | first :: rest => Some (fold_left foldSale rest (firstSale first))
  end.

(** The sales with a given key, in order. *)
Definition salesOfKey (key : jsstring) (registerSales : list RegisterSale)
    : list RegisterSale :=
  filter (fun sale => JsString.eqb (productKey sale) key) registerSales.

(** A character of a normalized name: a lower-case letter, a digit, an
    underscore or a space. *)
Definition normalChar (c : ascii) : bool :=
  (JsString.isWord c && negb (JsString.between 65 90 (JsString.code c)))
  || Ascii.eqb c " ".

(** A string of white space only. *)
Definition Blank (s : jsstring) : Prop :=
  Forall (fun c => JsString.isSpace c = true) s.

(** The grouping key of a catalog product: its lower-cased name and
    category joined by a bar. *)
Definition catalogKey (product : Product) : jsstring :=
  JsString.toLowerCase (name product)
  ++ JsString.lit "|"
  ++ JsString.toLowerCase (category product).

(** The sum of a measure over the entries of a map. *)
Definition totalOver (V : Type) (measure : V -> Z) (m : JsMap.t V) : Z :=
  fold_right (fun entry acc => measure (snd entry) + acc)%Z 0%Z m.

(** The products of a list that have a given category. *)
Definition ofCategory (category' : jsstring) (products : list Product)
    : list Product :=
  filter (fun p => JsString.eqb (category p) category') products.

(** The category lines of a sync report. *)
Definition reportBreakdown (summary : SyncSummary) : JsMap.t CategoryCount :=
  match summary with
  | SyncReport _ _ _ _ breakdown => breakdown
  | _ => []
  end.

(** The number that a category line counts; a text counts nothing. *)
Definition countedProducts (count : CategoryCount) : Z :=
  match count with
  | Counted n => Z.of_nat n
  | NotCounted _ => 0%Z
  end.

(** The products whose category the report can count. *)
Definition countable (products : list Product) : list Product :=
  filter (fun p => negb (inheritedName (category p))) products.

(** ** Clean names *)

(** The words that the normalizer removes. *)
Definition isNoise (word : jsstring) : bool :=
  existsb (JsString.eqb word)
    [JsString.lit "100"; JsString.lit "100s"; JsString.lit "20";
     JsString.lit "20s"; JsString.lit "25"; JsString.lit "25s"].

(** A word after the removal: nothing is left of a noise word. *)
Definition stripWord (word : jsstring) : jsstring :=
  if isNoise word then [] else word.

(** The inverse of [split(' ')]: the words joined by single spaces. *)
Definition joinWords (words : list jsstring) : jsstring :=
  match words with
  | [] => []
  | w :: rest => w ++ flat_map (fun v => " "%char :: v) rest
  end.

(** A string of word characters. *)
Definition WordStr (s : jsstring) : Prop :=
  Forall (fun c => JsString.isWord c = true) s.

(** A string of normalized characters. *)
Definition Plain (s : jsstring) : Prop :=
  Forall (fun c => normalChar c = true) s.

(** A string without white space at either end. *)
Definition EndsClean (s : jsstring) : Prop :=
  (forall c r, s = c :: r -> JsString.isSpace c = false)
  /\ (forall c r, s = r ++ [c] -> JsString.isSpace c = false).

(** A string none of whose words is a noise word. *)
Definition Quiet (s : jsstring) : Prop :=
  Forall (fun w => isNoise w = false) (JsString.split " " s).

(** The rest of the string starts at a word boundary after a word. *)
Definition TailOK (tail : jsstring) : Prop :=
  JsString.wordBoundary true tail = true.

(** ** Batched writes *)

(** The loop [for (let i = 0; i < items.length; i += BATCH_SIZE)
    batches.push(items.slice(i, i + BATCH_SIZE))] shared by the batch
    imports and batch deletions, from index [i] on, for a batch size
    [size]; it runs at most [fuel] times. *)
Fixpoint splitFrom (A : Type) (size fuel i : nat) (items : list A)
    : list (list A) :=
  match fuel with
  | O => []
  | S fuel' =>
      if i <? length items
      then firstn size (skipn i items) :: splitFrom size fuel' (i + size) items
      else []
  end.

(** [batches] after the loop. *)
Definition splitBatches (A : Type) (items : list A) : list (list A) :=
  splitFrom BATCH_SIZE (length items) 0 items.

(** [ids.includes(id)] *)
Definition includesId (ids : list jsstring) (id' : jsstring) : bool :=
  existsb (JsString.eqb id') ids.

(** [prev.filter(p => !productIds.includes(p.id))] *)
Definition withoutProducts (productIds : list jsstring) (prev : list Product)
    : list Product :=
  filter (fun p => negb (includesId productIds (id p))) prev.

(** The [for (const batch of batches)] loop of [deleteProducts]: batch
    number [b] deletes its documents from the collection [store] when its
    commit succeeds; a failed commit leaves the [try] block.  The boolean
    tells whether the loop ended normally. *)
Fixpoint commitDeletes (commitOk : nat -> bool) (b : nat)
    (batches : list (list jsstring)) (store : list Product)
    : bool * list Product :=
  match batches with
  | [] => (true, store)
  | batch :: rest =>
      if commitOk b
      then commitDeletes commitOk (S b) rest (withoutProducts batch store)
      else (false, store)
  end.

(** [deleteProducts(productIds)]: the returned boolean, the [products]
    state and the products collection after the call.  Both the [try] and
    the [catch] branch filter the state. *)
Definition deleteProducts (commitOk : nat -> bool) (productIds : list jsstring)
    (products store : list Product) : bool * list Product * list Product :=
  match commitDeletes commitOk 0 (splitBatches productIds) store with
  | (true, store') => (true, withoutProducts productIds products, store')
  | (false, store') => (false, withoutProducts productIds products, store')
  end.

(** [deleteProduct(id)]: the state after the call, in both branches. *)
Definition deleteProduct (id' : jsstring) (products : list Product)
    : list Product :=
  filter (fun p => negb (JsString.eqb (id p) id')) products.

(** ** Alerts *)

Inductive AlertType := LowStockAlert | HighSalesAlert.

Inductive Severity := SeverityError | SeverityWarning | SeverityInfo.

(** The three message templates with the values they print. *)
Inductive AlertMessage :=
| OutOfStockMessage (productName : jsstring)
| LowStockMessage (productName : jsstring) (stock minStock : Z)
| HighSalesMessage (todaySales : nat).

Record Alert := {
  alert_id : jsstring;
  alert_type : AlertType;
  alert_message : AlertMessage;
  alert_severity : Severity;
  alert_timestamp : Z;
  alert_read : bool
}.

(** The alert pushed for a product with [stock <= minStock]. *)
Definition lowStockAlert (now : Z) (product : Product) : Alert :=
  {| alert_id := JsString.lit "low-stock-" ++ id product;
     alert_type := LowStockAlert;
     alert_message :=
       if (stock product =? 0)%Z then OutOfStockMessage (name product)
       else LowStockMessage (name product) (stock product) (minStock product);
     alert_severity :=
       if (stock product =? 0)%Z then SeverityError else SeverityWarning;
     alert_timestamp := now;
     alert_read := false |}.

Definition highSalesAlert (now : Z) (todaySales : nat) : Alert :=
  {| alert_id := JsString.lit "high-sales-today";
     alert_type := HighSalesAlert;
     alert_message := HighSalesMessage todaySales;
     alert_severity := SeverityInfo;
     alert_timestamp := now;
     alert_read := false |}.

(** [generateAlerts]: the alert list put into the state.  [now] is the
    current time and [isToday] tells whether a sale date falls on the
    current day ([toDateString] of both are equal). *)
Definition generateAlerts (now : Z) (isToday : Z -> bool)
    (products : list Product) (registerSales : list RegisterSale)
    : list Alert :=
  let stockAlerts :=
    flat_map (fun product =>
                if (stock product <=? minStock product)%Z
                then [lowStockAlert now product] else [])
             products in
  let todaySales := filter (fun sale => isToday (sale_date sale)) registerSales in
  if 50 <? length todaySales
  then stockAlerts ++ [highSalesAlert now (length todaySales)]
  else stockAlerts.

(** [markAlertAsRead(id)] *)
Definition markAlertAsRead (id' : jsstring) (alerts : list Alert) : list Alert :=
  map (fun a =>
         if JsString.eqb (alert_id a) id'
         then {| alert_id := alert_id a;
                 alert_type := alert_type a;
                 alert_message := alert_message a;
                 alert_severity := alert_severity a;
                 alert_timestamp := alert_timestamp a;
                 alert_read := true |}
         else a)
      alerts.

Definition isLowStockAlert (a : Alert) : bool :=
  match alert_type a with LowStockAlert => true | HighSalesAlert => false end.

Definition isErrorAlert (a : Alert) : bool :=
  match alert_severity a with SeverityError => true | _ => false end.

(** ** Dashboard *)

(** The register name under which [calculateDashboardStats] counts a
    sale. *)
Definition normalizedRegister (register : jsstring) : jsstring :=
  if JsString.includes (JsString.toLowerCase register) (JsString.lit "1")
     || JsString.includes (JsString.toLowerCase register) (JsString.lit "caisse1")
  then JsString.lit "Register1"
  else if JsString.includes (JsString.toLowerCase register) (JsString.lit "2")
          || JsString.includes (JsString.toLowerCase register)
                               (JsString.lit "caisse2")
       then JsString.lit "Register2"
       else register.

(** ** Filters and pages of the stock table *)

(** [array.slice(start, stop)], negative indices counted from the end. *)
Definition sliceIndex (len k : Z) : Z :=
  if (k <? 0)%Z then Z.max (len + k) 0 else Z.min k len.

Definition jsSlice (A : Type) (start stop : Z) (l : list A) : list A :=
  let len := Z.of_nat (length l) in
  let from := sliceIndex len start in
  let to := sliceIndex len stop in
  firstn (Z.to_nat (to - from)) (skipn (Z.to_nat from) l).

Module StockTable.

Definition ITEMS_PER_PAGE : Z := 30.

(** The search test of the filter callback; a missing description fails. *)
Definition matchesSearch (searchTerm : jsstring) (product : Product) : bool :=
  JsString.includes (JsString.toLowerCase (name product))
                    (JsString.toLowerCase searchTerm)
  || JsString.includes (JsString.toLowerCase (category product))
                       (JsString.toLowerCase searchTerm)
  || match description product with
     | Some d => JsString.includes (JsString.toLowerCase d)
                                   (JsString.toLowerCase searchTerm)
     | None => false
     end.

Definition matchesCategory (filterCategory : jsstring) (product : Product)
    : bool :=
  JsString.eqb filterCategory (JsString.lit "all")
  || JsString.eqb (category product) filterCategory.

Definition matchesStatus (filterStatus : jsstring) (finalStock : Z)
    (product : Product) : bool :=
  JsString.eqb filterStatus (JsString.lit "all")
  || (JsString.eqb filterStatus (JsString.lit "in-stock") && (0 <? finalStock)%Z)
  || (JsString.eqb filterStatus (JsString.lit "out-of-stock")
      && (finalStock =? 0)%Z)
  || (JsString.eqb filterStatus (JsString.lit "low-stock")
      && (0 <? finalStock)%Z && (finalStock <=? minStock product)%Z).

Definition matchesStockLevel (filterStockLevel : jsstring) (finalStock : Z)
    (product : Product) : bool :=
  JsString.eqb filterStockLevel (JsString.lit "all")
  || (JsString.eqb filterStockLevel (JsString.lit "high")
      && (minStock product * 2 <? finalStock)%Z)
  || (JsString.eqb filterStockLevel (JsString.lit "normal")
      && (minStock product <? finalStock)%Z
      && (finalStock <=? minStock product * 2)%Z)
  || (JsString.eqb filterStockLevel (JsString.lit "low")
      && (0 <? finalStock)%Z && (finalStock <=? minStock product)%Z)
  || (JsString.eqb filterStockLevel (JsString.lit "empty")
      && (finalStock =? 0)%Z).

(** The callback of [products.filter] in [filteredAndSortedProducts]. *)
Definition matchesFilters (cache : JsMap.t StockCalculation)
    (searchTerm filterCategory filterStatus filterStockLevel : jsstring)
    (product : Product) : bool :=
  let finalStock := StockView.finalStockOf cache product in
  matchesSearch searchTerm product
  && matchesCategory filterCategory product
  && matchesStatus filterStatus finalStock product
  && matchesStockLevel filterStockLevel finalStock product.

(** [Math.ceil(length / itemsPerPage)] *)
Definition totalPages (A : Type) (rows : list A) : Z :=
  (- ((- Z.of_nat (length rows)) / ITEMS_PER_PAGE))%Z.

(** [paginatedProducts] for the page [currentPage]. *)
Definition paginated (A : Type) (currentPage : Z) (rows : list A) : list A :=
  let startIndex := ((currentPage - 1) * ITEMS_PER_PAGE)%Z in
  let endIndex := (startIndex + ITEMS_PER_PAGE)%Z in
  jsSlice startIndex endIndex rows.

(** [goToPage(page)]: the page put into the state. *)
Definition goToPage (A : Type) (rows : list A) (page : Z) : Z :=
  Z.max 1 (Z.min page (totalPages rows)).

End StockTable.

(** The filter callback of [StockModule.tsx], on the stored stock. *)
Module StockModuleFilter.

Definition matchesSearch (searchTerm : jsstring) (product : Product) : bool :=
  JsString.includes (JsString.toLowerCase (name product))
                    (JsString.toLowerCase searchTerm)
  || JsString.includes (JsString.toLowerCase (category product))
                       (JsString.toLowerCase searchTerm)
  || JsString.includes
       (JsString.toLowerCase
          match description product with Some d => d | None => [] end)
       (JsString.toLowerCase searchTerm).

Definition matchesStatus (filterStatus : jsstring) (product : Product) : bool :=
  if JsString.eqb filterStatus (JsString.lit "out-of-stock")
  then (stock product =? 0)%Z
  else if JsString.eqb filterStatus (JsString.lit "low-stock")
  then (0 <? stock product)%Z && (stock product <=? minStock product)%Z
  else if JsString.eqb filterStatus (JsString.lit "in-stock")
  then (minStock product <? stock product)%Z
  else true.

Definition matchesStockLevel (filterStockLevel : jsstring) (product : Product)
    : bool :=
  if JsString.eqb filterStockLevel (JsString.lit "critical")
  then (stock product =? 0)%Z
  else if JsString.eqb filterStockLevel (JsString.lit "low")
  then (0 <? stock product)%Z && (stock product <=? minStock product)%Z
  else if JsString.eqb filterStockLevel (JsString.lit "normal")
  then (minStock product <? stock product)%Z
       && (stock product <=? minStock product * 3)%Z
  else if JsString.eqb filterStockLevel (JsString.lit "high")
  then (minStock product * 3 <? stock product)%Z
  else true.

Definition matchesFilters
    (searchTerm filterCategory filterStatus filterStockLevel : jsstring)
    (product : Product) : bool :=
  matchesSearch searchTerm product
  && StockTable.matchesCategory filterCategory product
  && matchesStatus filterStatus product
  && matchesStockLevel filterStockLevel product.

End StockModuleFilter.

(** ** Sample data *)

Module Sample.

Definition sale (product category : string) (quantity : Z) (price : Q)
    (date : Z) : RegisterSale :=
  {| sale_id := JsString.lit "s";
     sale_product := JsString.lit product;
     sale_category := JsString.lit category;
     sale_register := JsString.lit "Register1";
     sale_date := date;
     sale_seller := JsString.lit "Marie";
     sale_quantity := quantity;
     sale_price := price;
     sale_total := inject_Z quantity * price |}.

Definition product (id' name' category' : string) (initial min : Z) : Product :=
  {| id := JsString.lit id';
     name := JsString.lit name';
     category := JsString.lit category';
     price := 3 # 2;
     stock := initial;
     initialStock := initial;
     initialStockDate := None;
     quantitySold := None;
     minStock := min;
     description := None |}.

(** An environment whose commits succeed for the batches in [ok]. *)
Definition env (ok : nat -> bool) : SyncEnv :=
  {| docId := fun n => JsString.lit "doc" ++ repeat "x"%char n;
     describe := fun _ _ => JsString.lit "Auto";
     commitOk := ok |}.

Definition catalog : list Product :=
  [product "p1" "COCA COLA" "boissons" 50 10].

(** Three sales of one product around a sale of a catalog product. *)
Definition chipsSales : list RegisterSale :=
  [sale "Lays" "Snacks" 7 (3 # 2) 0;
   sale "Coca Cola" "Boissons" 1 2 0;
   sale " lays" "snacks " 30 (5 # 2) 0;
   sale "LAYS" "snacks" 5 (2 # 1) 0].

Definition chipsEntry : SalesData :=
  fold_left foldSale
    [sale " lays" "snacks " 30 (5 # 2) 0; sale "LAYS" "snacks" 5 (2 # 1) 0]
    (firstSale (sale "Lays" "Snacks" 7 (3 # 2) 0)).

(** Two sales of one product at 10 and at 10.01, around a sale of a catalog
    product. *)
Definition crispsSales : list RegisterSale :=
  [sale "Pringles" "Snacks" 70 10 0;
   sale "Coca Cola" "Boissons" 1 2 0;
   sale "pringles " "snacks" 53 (JsNumber.literal (1001 # 100)) 0].

Definition crispsEntry : SalesData :=
  foldSale (firstSale (sale "Pringles" "Snacks" 70 10 0))
           (sale "pringles " "snacks" 53 (JsNumber.literal (1001 # 100)) 0).

(** [n] sales of [n] different products. *)
Fixpoint distinctSales (n : nat) : list RegisterSale :=
  match n with
  | O => []
  | S k =>
      distinctSales k
      ++ [{| sale_id := JsString.lit "s";
             sale_product := JsString.lit "item" ++ repeat "a"%char k;
             sale_category := JsString.lit "Divers";
             sale_register := JsString.lit "Register1";
             sale_date := 0;
             sale_seller := JsString.lit "Marie";
             sale_quantity := 1;
             sale_price := 2;
             sale_total := 2 |}]
  end.

End Sample.

(** * Properties *)

Local Open Scope nat_scope.

(** ** The arithmetic of numbers *)

Module JsNumberFacts.
Import JsNumber.
Local Open Scope Q_scope.

Lemma pow2_pos (e : Z) : 0 < pow2 e.
Proof. apply Qpower_0_lt. reflexivity. Qed.

Lemma pow2_add (a b : Z) : pow2 (a + b) == pow2 a * pow2 b.
Proof. apply Qpower_plus. discriminate. Qed.

Lemma pow2_le (a b : Z) : (a <= b)%Z -> pow2 a <= pow2 b.
Proof. intros H. apply Qpower_le_compat_l; [exact H | discriminate]. Qed.

Lemma pow2_Z (e : Z) : (0 <= e)%Z -> pow2 e == inject_Z (2 ^ e).
Proof. intros H. unfold pow2. now rewrite Zpower_Qpower. Qed.

Lemma pow2_succ (e : Z) : pow2 (e + 1) == 2 * pow2 e.
Proof. rewrite pow2_add. change (pow2 1) with 2. ring. Qed.

(** ** The nearest integer *)

Lemma roundHalfEven_nearest (y : Q) (n : Z) :
  Qabs (inject_Z (roundHalfEven y) - y) <= Qabs (inject_Z n - y).
Proof.
  pose proof (Qfloor_le y) as Hlo. pose proof (Qlt_floor y) as Hhi.
  rewrite inject_Z_plus in Hhi. change (inject_Z 1) with 1 in Hhi.
  assert (Hn : inject_Z n <= inject_Z (Qfloor y)
               \/ inject_Z (Qfloor y) + 1 <= inject_Z n).
  { destruct (Z_le_gt_dec n (Qfloor y)) as [H|H].
    - left. now rewrite <- Zle_Qle.
    - right. change 1 with (inject_Z 1).
      rewrite <- inject_Z_plus, <- Zle_Qle. lia. }
  assert (Hm : (inject_Z (roundHalfEven y) == inject_Z (Qfloor y)
                /\ y - inject_Z (Qfloor y) <= 1 # 2)
               \/ (inject_Z (roundHalfEven y) == inject_Z (Qfloor y) + 1
                   /\ 1 # 2 <= y - inject_Z (Qfloor y))).
  { unfold roundHalfEven. cbv zeta.
    destruct (Qcompare_spec (y - inject_Z (Qfloor y)) (1 # 2)) as [E|E|E].
    - destruct (Z.even (Qfloor y)).
      + left. split; [reflexivity | lra].
      + right. rewrite inject_Z_plus. change (inject_Z 1) with 1.
        split; [reflexivity | lra].
    - left. split; [reflexivity | lra].
    - right. rewrite inject_Z_plus. change (inject_Z 1) with 1.
      split; [reflexivity | lra]. }
  apply Qabs_Qle_condition.
  destruct Hn as [Hn|Hn].
  - rewrite (Qabs_neg (inject_Z n - y)) by lra.
    destruct Hm as [[-> Hm]| [-> Hm]]; split; lra.
  - rewrite (Qabs_pos (inject_Z n - y)) by lra.
    destruct Hm as [[-> Hm]| [-> Hm]]; split; lra.
Qed.

(** Half way between two integers, the even one is taken. *)
Lemma roundHalfEven_tie (y : Q) :
  y - inject_Z (Qfloor y) == 1 # 2 -> Z.even (roundHalfEven y) = true.
Proof.
  intros H. unfold roundHalfEven. cbv zeta.
  destruct (Qcompare_spec (y - inject_Z (Qfloor y)) (1 # 2)) as [E|E|E];
    [|lra..].
  destruct (Z.even (Qfloor y)) eqn:F; [exact F|].
  rewrite Z.add_1_r, Z.even_succ, <- Z.negb_even, F. reflexivity.
Qed.

(** The nearest integer is within one half. *)
Lemma roundHalfEven_half (y : Q) :
  Qabs (inject_Z (roundHalfEven y) - y) <= 1 # 2.
Proof.
  pose proof (roundHalfEven_nearest y (Qfloor y)) as H1.
  pose proof (roundHalfEven_nearest y (Qfloor y + 1)) as H2.
  pose proof (Qfloor_le y) as Hlo. pose proof (Qlt_floor y) as Hhi.
  rewrite inject_Z_plus in H2, Hhi. change (inject_Z 1) with 1 in H2, Hhi.
  rewrite (Qabs_neg (inject_Z (Qfloor y) - y)) in H1 by lra.
  rewrite (Qabs_pos (inject_Z (Qfloor y) + 1 - y)) in H2 by lra.
  lra.
Qed.

(** ** The binary logarithm *)

Lemma log2_bounds (n : Z) :
  (0 < n)%Z ->
  pow2 (Z.log2 n) <= inject_Z n /\ inject_Z n < 2 * pow2 (Z.log2 n).
Proof.
  intros Hn. pose proof (Z.log2_spec n Hn) as [Hlo Hhi].
  pose proof (Z.log2_nonneg n) as H0.
  rewrite <- pow2_succ, !pow2_Z by lia.
  rewrite <- Zle_Qle, <- Zlt_Qlt.
  replace (Z.log2 n + 1)%Z with (Z.succ (Z.log2 n)) by lia.
  split; assumption.
Qed.

Lemma log2Floor_spec (x : Q) :
  0 < x -> pow2 (log2Floor x) <= x /\ x < pow2 (log2Floor x + 1).
Proof.
  intros Hx. destruct x as [n d].
  assert (Hn : (0 < n)%Z) by (unfold Qlt in Hx; simpl in Hx; lia).
  unfold log2Floor. cbn [Qnum Qden].
  pose proof (log2_bounds Hn) as [Hn1 Hn2].
  pose proof (@log2_bounds (Zpos d) eq_refl) as [Hd1 Hd2].
  pose proof (pow2_pos (Z.log2 n)) as HA.
  pose proof (pow2_pos (Z.log2 (Zpos d))) as HB.
  set (A := pow2 (Z.log2 n)) in *. set (B := pow2 (Z.log2 (Zpos d))) in *.
  assert (Hk : pow2 (Z.log2 n - Z.log2 (Z.pos d)) == A / B)
    by (apply Qpower_minus; discriminate).
  assert (Hq : n # d == inject_Z n / inject_Z (Zpos d)) by apply Qmake_Qdiv.
  assert (HD : 0 < inject_Z (Zpos d)) by reflexivity.
  destruct (Qle_bool _ _) eqn:T.
  - apply Qle_bool_iff in T. split; [exact T|].
    rewrite pow2_succ, Hk, Hq.
    apply Qlt_shift_div_r; [exact HD|].
    setoid_replace (2 * (A / B) * inject_Z (Z.pos d))
      with ((2 * A) * (inject_Z (Zpos d) / B)) by (field; lra).
    assert (1 <= inject_Z (Z.pos d) / B) by (apply Qle_shift_div_l; lra).
    nra.
  - assert (T' : n # d < pow2 (Z.log2 n - Z.log2 (Z.pos d))).
    { apply Qnot_le_lt. intros H. apply Qle_bool_iff in H. congruence. }
    replace (Z.log2 n - Z.log2 (Z.pos d) - 1 + 1)%Z
      with (Z.log2 n - Z.log2 (Z.pos d))%Z by lia.
    split; [|exact T'].
    replace (Z.log2 n - Z.log2 (Z.pos d) - 1)%Z
      with (Z.log2 n - (Z.log2 (Z.pos d) + 1))%Z by lia.
    unfold pow2 at 1. rewrite Qpower_minus by discriminate.
    fold (pow2 (Z.log2 n)) (pow2 (Z.log2 (Z.pos d) + 1)). fold A.
    rewrite pow2_succ. fold B. rewrite Hq.
    apply Qle_shift_div_l; [exact HD|].
    setoid_replace (A / (2 * B) * inject_Z (Z.pos d))
      with (A * (inject_Z (Zpos d) / (2 * B))) by (field; lra).
    assert (inject_Z (Z.pos d) / (2 * B) <= 1) by (apply Qle_shift_div_r; lra).
    nra.
Qed.

(** ** Rounding *)

Lemma roundPositive_eq (x : Q) :
  roundPositive x
  == inject_Z (roundHalfEven (x / pow2 (lastPlace x))) * pow2 (lastPlace x).
Proof. unfold roundPositive. cbv zeta. apply Qred_correct. Qed.

(** No multiple of the unit in the last place is nearer. *)
Lemma roundPositive_grid (x : Q) (n : Z) :
  Qabs (roundPositive x - x) <= Qabs (inject_Z n * pow2 (lastPlace x) - x).
Proof.
  rewrite roundPositive_eq.
  pose proof (pow2_pos (lastPlace x)) as HP. set (P := pow2 (lastPlace x)) in *.
  pose proof (roundHalfEven_nearest (x / P) n) as H.
  set (m := roundHalfEven (x / P)) in *.
  setoid_replace (inject_Z m * P - x) with ((inject_Z m - x / P) * P)
    by (field; lra).
  setoid_replace (inject_Z n * P - x) with ((inject_Z n - x / P) * P)
    by (field; lra).
  rewrite !Qabs_Qmult, (Qabs_pos P) by lra.
  apply Qmult_le_compat_r; [exact H | lra].
Qed.

Lemma lastPlace_subnormal (x : Q) : (-1074 <= lastPlace x)%Z.
Proof. unfold lastPlace. lia. Qed.

Lemma roundPositive_nearest (x d : Q) :
  0 < x -> Binary64 d -> Qabs (roundPositive x - x) <= Qabs (d - x).
Proof.
  intros Hx (m & e & Hm & He & Hd).
  destruct (Z_le_gt_dec (lastPlace x) e) as [Hle|Hgt].
  - (* [d] is a multiple of the unit in the last place *)
    pose proof (roundPositive_grid x (m * 2 ^ (e - lastPlace x))) as H.
    rewrite inject_Z_mult, <- pow2_Z in H by lia.
    setoid_replace (inject_Z m * pow2 (e - lastPlace x) * pow2 (lastPlace x))
      with d in H; [exact H|].
    rewrite Hd, <- Qmult_assoc, <- pow2_add.
    now replace (e - lastPlace x + lastPlace x)%Z with e by lia.
  - (* [d] is below the least number with the exponent of [x] *)
    pose proof (roundPositive_grid x (2 ^ 52)) as H.
    assert (He' : lastPlace x = (log2Floor x - 52)%Z)
      by (unfold lastPlace in *; lia).
    pose proof (log2Floor_spec Hx) as [Hlo _].
    assert (Hg : inject_Z (2 ^ 52) * pow2 (lastPlace x) <= x).
    { rewrite <- pow2_Z, <- pow2_add, He' by lia.
      now replace (52 + (log2Floor x - 52))%Z with (log2Floor x) by lia. }
    assert (Hdg : d <= inject_Z (2 ^ 52) * pow2 (lastPlace x)).
    { rewrite Hd.
      apply Qle_trans with (inject_Z (2 ^ 53) * pow2 e).
      - apply Qmult_le_compat_r; [|apply Qlt_le_weak, pow2_pos].
        rewrite <- Zle_Qle. lia.
      - rewrite <- !pow2_Z, <- !pow2_add by lia. apply pow2_le. lia. }
    eapply Qle_trans; [exact H|].
    rewrite (Qabs_neg (_ - x)) by lra. rewrite (Qabs_neg (d - x)) by lra. lra.
Qed.

Lemma roundPositive_binary64 (x : Q) : 0 < x -> Binary64 (roundPositive x).
Proof.
  intros Hx. exists (roundHalfEven (x / pow2 (lastPlace x))), (lastPlace x).
  split; [|split; [apply lastPlace_subnormal | apply roundPositive_eq]].
  pose proof (pow2_pos (lastPlace x)) as HP.
  pose proof (log2Floor_spec Hx) as [_ Hhi].
  assert (Hy : x / pow2 (lastPlace x) < inject_Z (2 ^ 53)).
  { apply Qlt_shift_div_r; [exact HP|].
    eapply Qlt_le_trans; [exact Hhi|].
    rewrite <- pow2_Z, <- pow2_add by lia. apply pow2_le.
    unfold lastPlace. lia. }
  assert (H0 : 0 < x / pow2 (lastPlace x)) by (apply Qlt_shift_div_l; lra).
  set (y := x / pow2 (lastPlace x)) in *.
  assert (Hf : (0 <= Qfloor y < 2 ^ 53)%Z).
  { split.
    - change 0%Z with (Qfloor 0). apply Qfloor_resp_le. lra.
    - pose proof (Qfloor_le y) as Hfl.
      rewrite Zlt_Qlt. lra. }
  unfold roundHalfEven. cbv zeta.
  destruct (Qcompare _ _); [destruct (Z.even _)| |]; lia.
Qed.

Lemma binary64_opp (d : Q) : Binary64 d -> Binary64 (- d).
Proof.
  intros (m & e & Hm & He & Hd). exists (- m)%Z, e.
  split; [lia|]. split; [exact He|].
  rewrite Hd, inject_Z_opp. ring.
Qed.

(** The result of a rounding is a binary64 number. *)
Lemma round_binary64 (x : Q) : Binary64 (round x).
Proof.
  unfold round. destruct x as [[|n|n] d]; cbn [Qnum].
  - exists 0%Z, 0%Z. split; [lia|]. split; [lia|]. reflexivity.
  - now apply roundPositive_binary64.
  - apply binary64_opp. now apply roundPositive_binary64.
Qed.

(** No binary64 number is nearer to [x] than the result of the rounding. *)
Lemma round_nearest (x d : Q) :
  Binary64 d -> Qabs (round x - x) <= Qabs (d - x).
Proof.
  intros Hd. unfold round. destruct x as [[|n|n] dx] eqn:E; cbn [Qnum].
  - setoid_replace (0 - (0 # dx)) with 0 by reflexivity. apply Qabs_nonneg.
  - now apply roundPositive_nearest.
  - pose proof (@roundPositive_nearest (- (Z.neg n # dx)) (- d) eq_refl
                  (binary64_opp Hd)) as H.
    setoid_replace (- roundPositive (- (Z.neg n # dx)) - (Z.neg n # dx))
      with (- (roundPositive (- (Z.neg n # dx)) - - (Z.neg n # dx))) by ring.
    setoid_replace (d - (Z.neg n # dx)) with (- (- d - - (Z.neg n # dx)))
      by ring.
    now rewrite !Qabs_opp.
Qed.

Lemma roundPositive_error (x : Q) :
  0 < x ->
  Qabs (roundPositive x - x) <= x * pow2 (-53) + pow2 (-1075).
Proof.
  intros Hx. rewrite roundPositive_eq.
  pose proof (pow2_pos (lastPlace x)) as HP.
  pose proof (roundHalfEven_half (x / pow2 (lastPlace x))) as H.
  assert (Hlast : pow2 (lastPlace x) <= x * pow2 (-52) + pow2 (-1074)).
  { pose proof (log2Floor_spec Hx) as [Hlo _].
    pose proof (pow2_pos (-1074)) as H74.
    pose proof (pow2_pos (-52)) as H52.
    assert (Hn : pow2 (log2Floor x - 52) <= x * pow2 (-52)).
    { replace (log2Floor x - 52)%Z with (log2Floor x + -52)%Z by lia.
      rewrite pow2_add. apply Qmult_le_compat_r; lra. }
    assert (Hpos : 0 <= x * pow2 (-52)) by (apply Qmult_le_0_compat; lra).
    unfold lastPlace.
    destruct (Z.max_spec (log2Floor x - 52) (-1074)) as [[_ ->]|[_ ->]]; lra. }
  set (P := pow2 (lastPlace x)) in *.
  set (m := roundHalfEven (x / P)) in *.
  setoid_replace (inject_Z m * P - x) with ((inject_Z m - x / P) * P)
    by (field; lra).
  rewrite Qabs_Qmult, (Qabs_pos P) by lra.
  assert (H75 : pow2 (-1074) == 2 * pow2 (-1075))
    by (rewrite <- pow2_succ; reflexivity).
  assert (H53 : pow2 (-52) == 2 * pow2 (-53))
    by (rewrite <- pow2_succ; reflexivity).
  pose proof (Qabs_nonneg (inject_Z m - x / P)) as H0.
  set (a := Qabs (inject_Z m - x / P)) in *.
  assert (a * P <= (1 # 2) * P) by (apply Qmult_le_compat_r; lra).
  rewrite H53, H75 in Hlast.
  set (u := pow2 (-53)) in *. set (eta := pow2 (-1075)) in *.
  setoid_replace (x * (2 * u)) with (2 * (x * u)) in Hlast by ring.
  set (xu := x * u) in *. lra.
Qed.

(** The error of a rounding: a relative error of at most [2^-53], or half
    the least subnormal number. *)
Lemma round_error (x : Q) :
  Qabs (round x - x) <= Qabs x * pow2 (-53) + pow2 (-1075).
Proof.
  unfold round. destruct x as [[|n|n] d] eqn:E; cbn [Qnum].
  - assert (H0 : Qabs (0 - (0 # d)) == 0) by reflexivity. rewrite H0.
    pose proof (pow2_pos (-1075)). pose proof (pow2_pos (-53)).
    pose proof (Qabs_nonneg (0 # d)).
    assert (0 <= Qabs (0 # d) * pow2 (-53)) by (apply Qmult_le_0_compat; lra).
    lra.
  - rewrite (Qabs_pos (Z.pos n # d)) by discriminate.
    now apply roundPositive_error.
  - pose proof (@roundPositive_error (- (Z.neg n # d)) eq_refl) as H.
    setoid_replace (- roundPositive (- (Z.neg n # d)) - (Z.neg n # d))
      with (- (roundPositive (- (Z.neg n # d)) - - (Z.neg n # d))) by ring.
    rewrite Qabs_opp, (Qabs_neg (Z.neg n # d)) by discriminate. exact H.
Qed.

(** A binary64 number is its own rounding. *)
Lemma round_exact (d : Q) : Binary64 d -> round d == d.
Proof.
  intros Hd. pose proof (round_nearest d Hd) as H.
  setoid_replace (d - d) with 0 in H by ring. change (Qabs 0) with 0 in H.
  apply Qabs_Qle_condition in H. lra.
Qed.

(** [0.1 + 0.2] is [0.30000000000000004]. *)
Example add_tenths :
  add (literal (1 # 10)) (literal (2 # 10))
  = 1351079888211149 # 4503599627370496.
Proof. vm_compute. reflexivity. Qed.

(** [(10 * 1 + 10.01) / 2] is [10.004999999999999], and 100 times that is
    [1000.4999999999999]. *)
Example mean_below_half_cent :
  let mean := div (add (mul 10 1) (literal (1001 # 100))) 2 in
  mean = 2816157141990113 # 281474976710656
  /\ mul mean 100 = 8800491068719103 # 8796093022208
  /\ mathRound (mul mean 100) = 1000%Z.
Proof. vm_compute. repeat split. Qed.

End JsNumberFacts.


(** ** Strings *)

Module JsStringFacts.

Lemma eqb_refl (a : jsstring) : JsString.eqb a a = true.
Proof.
  induction a as [|c a IH]; simpl; [reflexivity|].
  now rewrite Ascii.eqb_refl.
Qed.

Lemma eqb_eq (a b : jsstring) : JsString.eqb a b = true <-> a = b.
Proof.
  split.
  - revert b. induction a as [|x a IH]; destruct b as [|y b]; simpl;
      try discriminate; [reflexivity|].
    intros H. apply andb_true_iff in H as [Hxy Hab].
    apply Ascii.eqb_eq in Hxy. f_equal; auto.
  - intros ->. apply eqb_refl.
Qed.

Lemma eqb_neq (a b : jsstring) : JsString.eqb a b = false <-> a <> b.
Proof.
  rewrite <- eqb_eq. destruct (JsString.eqb a b); split; congruence.
Qed.

Lemma startsWith_spec (s p : jsstring) :
  JsString.startsWith s p = true <-> exists after, s = p ++ after.
Proof.
  revert s. induction p as [|x p IH]; intros s; simpl.
  - split; [intros _; now exists s | reflexivity].
  - destruct s as [|y s].
    + split; [discriminate | intros [after H]; discriminate].
    + rewrite andb_true_iff, Ascii.eqb_eq, IH. split.
      * intros [-> [after ->]]. now exists after.
      * intros [after H]. injection H as -> ->. split; [reflexivity|].
        now exists after.
Qed.

(** [includes] is the substring test. *)
Lemma includes_spec (s p : jsstring) :
  JsString.includes s p = true <-> Substring p s.
Proof.
  unfold Substring. induction s as [|y s IH].
  - simpl. rewrite orb_false_r, startsWith_spec. split.
    + intros [after H]. now exists [], after.
    + intros [before [after H]].
      destruct before; [now exists after | discriminate].
  - cbn [JsString.includes]. rewrite orb_true_iff, startsWith_spec, IH. split.
    + intros [[after H] | [before [after H]]].
      * now exists [], after.
      * exists (y :: before), after. now rewrite H.
    + intros [[|b before] [after H]].
      * left. now exists after.
      * right. injection H as _ ->. now exists before, after.
Qed.

Lemma includes_refl (s : jsstring) : JsString.includes s s = true.
Proof. apply includes_spec. exists [], []. now rewrite app_nil_r. Qed.

End JsStringFacts.

(** ** The matcher *)

Section TierChain.
Variables tier1 tier2 : Product -> bool.

(** The third predicate has no say once an earlier tier has answered. *)
Lemma firstTier_early (products : list Product) (p : Product) :
  In p products -> tier2 p = true ->
  exists tier m,
    tier <> Fuzzy /\ In m products /\
    (tier = Exact /\ find tier1 products = Some m /\ tier1 m = true
     \/ tier = Containment /\ find tier1 products = None
        /\ find tier2 products = Some m /\ tier2 m = true) /\
    forall tier3, firstTier tier1 tier2 tier3 products = Some (tier, m).
Proof.
  intros Hin Hp. unfold firstTier.
  destruct (find tier1 products) as [m|] eqn:E1.
  - exists Exact, m. apply find_some in E1 as E1'. destruct E1' as [Hm Ht].
    split; [discriminate|]. split; [assumption|]. split; [|reflexivity].
    left. auto.
  - destruct (find tier2 products) as [m|] eqn:E2.
    + exists Containment, m. apply find_some in E2 as E2'.
      destruct E2' as [Hm Ht].
      split; [discriminate|]. split; [assumption|]. split; [|reflexivity].
      right. auto.
    + exfalso. pose proof (find_none _ _ E2 _ Hin) as Hn. congruence.
Qed.
End TierChain.

Lemma findMatchingProduct_tier (saleName saleCategory : jsstring)
    (products : list Product) :
  findMatchingProduct saleName saleCategory products
  = option_map snd (findMatchingProductTier saleName saleCategory products).
Proof.
  unfold findMatchingProduct, findMatchingProductTier, firstTier.
  repeat match goal with |- context [find ?f ?l] => destruct (find f l) end;
    reflexivity.
Qed.

Lemma exactMatch_partialMatch (n c : jsstring) (p : Product) :
  exactMatch n c p = true -> partialMatch n c p = true.
Proof.
  unfold exactMatch, partialMatch. intros H.
  apply andb_true_iff in H as [Hn Hc]. apply JsStringFacts.eqb_eq in Hn.
  rewrite Hc, Hn, JsStringFacts.includes_refl. reflexivity.
Qed.

(** C3: when some catalog product satisfies the containment tier, the
    matcher returns a product that satisfies the containment tier, the tier
    that answers is the exact or the containment tier, and the answer is the
    same whatever the fuzzy predicate is: the fuzzy tier is not consulted. *)
Theorem matcher_containment_before_fuzzy
    (saleName saleCategory : jsstring) (products : list Product) (p : Product) :
  In p products ->
  partialMatch (normalizeProductName saleName) (normalizeCategory saleCategory) p
  = true ->
  exists tier m,
    findMatchingProductTier saleName saleCategory products = Some (tier, m)
    /\ findMatchingProduct saleName saleCategory products = Some m
    /\ tier <> Fuzzy
    /\ In m products
    /\ partialMatch (normalizeProductName saleName)
                    (normalizeCategory saleCategory) m = true
    /\ forall tier3,
         firstTier (exactMatch (normalizeProductName saleName)
                               (normalizeCategory saleCategory))
                   (partialMatch (normalizeProductName saleName)
                                 (normalizeCategory saleCategory))
                   tier3 products
         = Some (tier, m).
Proof.
  intros Hin Hp.
  destruct (firstTier_early
              (exactMatch (normalizeProductName saleName)
                          (normalizeCategory saleCategory)) _ _ _ Hin Hp)
    as (tier & m & Hne & Hm & Hcase & Hany).
  exists tier, m.
  assert (Ht : findMatchingProductTier saleName saleCategory products
               = Some (tier, m)) by apply Hany.
  repeat split; auto.
  - rewrite findMatchingProduct_tier, Ht. reflexivity.
  - destruct Hcase as [(_ & _ & He) | (_ & _ & _ & Hc)]; auto.
    now apply exactMatch_partialMatch.
Qed.

Lemma matcher_containment_before_fuzzy_witness :
  let products := [Sample.product "p1" "COCA COLA" "boissons" 50 10] in
  let n := normalizeProductName (JsString.lit "Coca") in
  let c := normalizeCategory (JsString.lit "Boissons") in
  (exists p, In p products /\ partialMatch n c p = true
             /\ exactMatch n c p = false /\ fuzzyMatch n c p = true)
  /\ exists tier m,
       findMatchingProductTier (JsString.lit "Coca") (JsString.lit "Boissons")
                               products = Some (tier, m)
       /\ findMatchingProduct (JsString.lit "Coca") (JsString.lit "Boissons")
                              products = Some m
       /\ tier <> Fuzzy
       /\ In m products
       /\ partialMatch n c m = true
       /\ forall tier3,
            firstTier (exactMatch n c) (partialMatch n c) tier3 products
            = Some (tier, m).
Proof.
  split.
  - exists (Sample.product "p1" "COCA COLA" "boissons" 50 10).
    repeat split; [simpl; auto | ..]; reflexivity.
  - apply (matcher_containment_before_fuzzy
             (JsString.lit "Coca") (JsString.lit "Boissons")
             [Sample.product "p1" "COCA COLA" "boissons" 50 10]
             (Sample.product "p1" "COCA COLA" "boissons" 50 10)).
    + simpl. left. reflexivity.
    + reflexivity.
Defined.

Lemma fuzzyMatch_no_words (n c : jsstring) (p : Product) :
  mainWords n = [] ->
  fuzzyMatch n c p = JsString.eqb (normalizeCategory (category p)) c.
Proof.
  intros Hw. unfold fuzzyMatch. rewrite Hw.
  destruct (JsString.eqb (normalizeCategory (category p)) c); reflexivity.
Qed.

Lemma find_ext (A : Type) (f g : A -> bool) (l : list A) :
  (forall x, f x = g x) -> find f l = find g l.
Proof.
  intros H. induction l as [|a l IH]; simpl; [reflexivity|].
  now rewrite H, IH.
Qed.

(** C10: when the normalized sale name has no word longer than 2
    characters and the exact and containment tiers find nothing, the matcher
    returns the first catalog product of the same (lower-cased, trimmed)
    category, since the fuzzy threshold is [ceil70 0 = 0]. *)
Theorem matcher_short_name_first_of_category
    (saleName saleCategory : jsstring) (products : list Product) :
  mainWords (normalizeProductName saleName) = [] ->
  find (exactMatch (normalizeProductName saleName)
                   (normalizeCategory saleCategory)) products = None ->
  find (partialMatch (normalizeProductName saleName)
                     (normalizeCategory saleCategory)) products = None ->
  ceil70 (length (mainWords (normalizeProductName saleName))) = 0%nat
  /\ findMatchingProduct saleName saleCategory products
     = find (sameCategory saleCategory) products
  /\ findMatchingProductTier saleName saleCategory products
     = option_map (pair Fuzzy) (find (sameCategory saleCategory) products).
Proof.
  intros Hw He Hc. split; [now rewrite Hw|].
  assert (Hf : find (fuzzyMatch (normalizeProductName saleName)
                                (normalizeCategory saleCategory)) products
               = find (sameCategory saleCategory) products).
  { apply find_ext. intros x. now apply fuzzyMatch_no_words. }
  unfold findMatchingProduct, findMatchingProductTier, firstTier.
  rewrite He, Hc, Hf. split; [reflexivity|].
  destruct (find (sameCategory saleCategory) products); reflexivity.
Qed.

Lemma matcher_short_name_first_of_category_witness :
  let products := [Sample.product "p0" "Fanta" "snacks" 5 1;
                   Sample.product "p1" "COCA COLA" " Boissons" 50 10;
                   Sample.product "p2" "Orangina" "boissons" 20 5] in
  mainWords (normalizeProductName (JsString.lit "XY 20s")) = []
  /\ findMatchingProduct (JsString.lit "XY 20s") (JsString.lit "boissons") products
     = Some (Sample.product "p1" "COCA COLA" " Boissons" 50 10).
Proof.
  split; [reflexivity|].
  apply (proj1 (proj2 (matcher_short_name_first_of_category
                         (JsString.lit "XY 20s") (JsString.lit "boissons")
                         [Sample.product "p0" "Fanta" "snacks" 5 1;
                          Sample.product "p1" "COCA COLA" " Boissons" 50 10;
                          Sample.product "p2" "Orangina" "boissons" 20 5]
                         eq_refl eq_refl eq_refl))).
Defined.

(** ** Reconciliation *)

Lemma sumQuantity_from (sales : list RegisterSale) (start : Z) :
  fold_left (fun sum sale => sum + sale_quantity sale)%Z sales start
  = (start + sumQuantity sales)%Z.
Proof.
  unfold sumQuantity. revert start.
  induction sales as [|s sales IH]; intros start; simpl; [lia|].
  rewrite IH, (IH (sale_quantity s)). lia.
Qed.

Lemma sumQuantity_cons (s : RegisterSale) (sales : list RegisterSale) :
  sumQuantity (s :: sales) = (sale_quantity s + sumQuantity sales)%Z.
Proof. unfold sumQuantity at 1. simpl. apply sumQuantity_from. Qed.

Lemma sumQuantity_app (a b : list RegisterSale) :
  sumQuantity (a ++ b) = (sumQuantity a + sumQuantity b)%Z.
Proof.
  unfold sumQuantity at 1. rewrite fold_left_app.
  fold (sumQuantity a). apply sumQuantity_from.
Qed.

(** C1: the final stock plus the quantities of the attributable sales is
    the initial stock, for every product and sale list, also when the final
    stock is negative; [recalculateProductQuantities] writes both numbers
    back unchanged. *)
Theorem reconciliation_conservation
    (product : Product) (registerSales : list RegisterSale) :
  let calculation := calculateStockFinal product registerSales in
  let updated := recalculateProduct registerSales product in
  (finalStock calculation + sumQuantity (validSales calculation)
   = initialStock product)%Z
  /\ stock updated = finalStock calculation
  /\ quantitySold updated = Some (sumQuantity (validSales calculation)).
Proof.
  cbv zeta. unfold recalculateProduct, calculateStockFinal.
  cbn [finalStock validSales stock quantitySold hasInconsistentStock].
  split; [lia|]. split; reflexivity.
Qed.

Example reconciliation_negative_kept :
  finalStock (calculateStockFinal
                (Sample.product "p1" "COCA COLA" "boissons" 5 10)
                [Sample.sale "Coca Cola 100S" "Boissons" 8 2 0])
  = (-3)%Z.
Proof. reflexivity. Qed.

(** ** Normalizer *)

(** C2 fails on the code: the white-space runs are collapsed before the
    special characters and the size tokens are removed, so that a removed
    token leaves two spaces, which a second pass collapses. *)
Theorem normalizeProductName_not_idempotent :
  normalizeProductName (JsString.lit "a 100 b") = JsString.lit "a  b"
  /\ normalizeProductName (normalizeProductName (JsString.lit "a 100 b"))
     = JsString.lit "a b"
  /\ normalizeProductName (normalizeProductName (JsString.lit "a 100 b"))
     <> normalizeProductName (JsString.lit "a 100 b").
Proof. repeat split; try reflexivity. discriminate. Qed.

(** The same slip through a special character. *)
Example normalizeProductName_dash :
  normalizeProductName (JsString.lit "Coca - Cola") = JsString.lit "coca  cola"
  /\ normalizeProductName (JsString.lit "Coca Cola") = JsString.lit "coca cola".
Proof. split; reflexivity. Qed.

(** ** Statistics *)

Module StockViewFacts.
Import StockView.

Section Counters.
Variable cache : JsMap.t StockCalculation.

Lemma counters_from (products : list Product) (acc : StockStats) :
  outOfStock (fold_left (countProduct cache) products acc)
  = (outOfStock acc + countOutOfStock (finalStockOf cache) products)%nat
  /\ lowStock (fold_left (countProduct cache) products acc)
     = (lowStock acc + length (filter (countedLow cache) products))%nat.
Proof.
  revert acc. unfold countOutOfStock.
  induction products as [|p products IH]; intros acc; simpl.
  - split; lia.
  - destruct (IH (countProduct cache acc p)) as [Ho Hl].
    rewrite Ho, Hl. unfold countProduct, countedLow. simpl.
    destruct (finalStockOf cache p =? 0)%Z; simpl.
    + split; lia.
    + destruct (finalStockOf cache p <=? minStock p)%Z; simpl; split; lia.
Qed.

(** The out-of-stock counter is the one the specification describes. *)
Lemma stockStats_outOfStock (products : list Product) :
  outOfStock (stockStats products cache)
  = countOutOfStock (finalStockOf cache) products.
Proof. unfold stockStats. now rewrite (proj1 (counters_from _ _)). Qed.

Lemma stockStats_lowStock (products : list Product) :
  lowStock (stockStats products cache)
  = length (filter (countedLow cache) products).
Proof. unfold stockStats. now rewrite (proj2 (counters_from _ _)). Qed.
End Counters.

End StockViewFacts.

(** The stored-stock statistics of [StockModule.tsx] count as the
    specification says. *)
Lemma StockModule_stockStats_counts (products : list Product) :
  StockModule.outOfStock (StockModule.stockStats products)
  = countOutOfStock stock products
  /\ StockModule.lowStock (StockModule.stockStats products)
     = countLowStock stock products.
Proof. split; reflexivity. Qed.

(** C5 fails on the code: a product whose reconciled final stock is
    negative is counted as low stock by [stockStats] of the stock table,
    while the low-stock filter of the same table and the specification leave
    it out. *)
Theorem stockStats_counts_negative_as_low :
  let product := Sample.product "p1" "COCA COLA" "boissons" 5 10 in
  let registerSales := [Sample.sale "Coca Cola 100S" "Boissons" 8 2 0] in
  let final := fun p => finalStock (calculateStockFinal p registerSales) in
  final product = (-3)%Z
  /\ StockView.lowStock (StockView.aggregate [product] registerSales) = 1%nat
  /\ StockView.outOfStock (StockView.aggregate [product] registerSales) = 0%nat
  /\ countLowStock final [product] = 0%nat
  /\ StockView.lowStockFilter (final product) product = false.
Proof. repeat split; reflexivity. Qed.

(** ** Words of a normalized name *)

Module NormalizeFacts.
Import JsString.

Lemma SpacesOnly_sub (s s' : jsstring) :
  (forall c, In c s' -> In c s) -> SpacesOnly s -> SpacesOnly s'.
Proof.
  unfold SpacesOnly. rewrite !Forall_forall. intros Hsub H c Hc. auto.
Qed.

Lemma collapseSpaces_SpacesOnly (s : jsstring) (inRun : bool) :
  SpacesOnly (collapseSpaces inRun s).
Proof.
  unfold SpacesOnly. revert inRun.
  induction s as [|c s IH]; intros inRun; simpl; [constructor|].
  destruct (isSpace c) eqn:Hc.
  - destruct inRun; [apply IH|]. constructor; [reflexivity | apply IH].
  - constructor; [congruence | apply IH].
Qed.

Lemma trimStart_In (s : jsstring) (c : ascii) : In c (trimStart s) -> In c s.
Proof.
  induction s as [|x s IH]; simpl; [tauto|].
  destruct (isSpace x); simpl; tauto.
Qed.

Lemma trim_In (s : jsstring) (c : ascii) : In c (trim s) -> In c s.
Proof.
  unfold trim, trimEnd. intros H.
  apply in_rev, trimStart_In in H. apply in_rev in H.
  now apply trimStart_In.
Qed.

Lemma stripNoise_In (s : jsstring) (prevWord : bool) (skip : nat) (c : ascii) :
  In c (stripNoise prevWord skip s) -> In c s.
Proof.
  revert prevWord skip.
  induction s as [|x s IH]; intros prevWord skip; [simpl; tauto|].
  cbn [stripNoise]. destruct skip as [|k].
  - destruct (matchNoise prevWord (x :: s)) as [[|k]|].
    + simpl. intros [->|H]; [now left | right; eauto].
    + intros H. right. eauto.
    + simpl. intros [->|H]; [now left | right; eauto].
  - intros H. right. eauto.
Qed.

(** A normalized name has no white space but spaces. *)
Lemma normalizeProductName_SpacesOnly (name : jsstring) :
  SpacesOnly (normalizeProductName name).
Proof.
  unfold normalizeProductName.
  eapply SpacesOnly_sub; [apply trim_In|].
  eapply SpacesOnly_sub; [intros c; apply stripNoise_In|].
  eapply SpacesOnly_sub;
    [intros c Hc; apply filter_In in Hc; exact (proj1 Hc)|].
  apply collapseSpaces_SpacesOnly.
Qed.

(** On such a string, splitting on white space is [split(' ')]. *)
Lemma splitOn_split (s : jsstring) :
  SpacesOnly s -> splitOn isSpace s = split " " s.
Proof.
  unfold SpacesOnly. induction 1 as [|c s Hc Hs IH]; simpl; [reflexivity|].
  rewrite IH. destruct (isSpace c) eqn:E.
  - rewrite (Hc eq_refl). reflexivity.
  - destruct (Ascii.eqb c " ") eqn:E'; [|reflexivity].
    apply Ascii.eqb_eq in E'. subst c. discriminate.
Qed.

Lemma mainWords_tokens (name : jsstring) :
  mainWords (normalizeProductName name)
  = tokensLongerThan2 (normalizeProductName name).
Proof.
  unfold mainWords, tokensLongerThan2.
  now rewrite splitOn_split by apply normalizeProductName_SpacesOnly.
Qed.

End NormalizeFacts.

Lemma ceil70_le (n m : nat) : (ceil70 n <= m <-> 7 * n <= 10 * m)%nat.
Proof.
  unfold ceil70.
  pose proof (Nat.div_mod_eq (7 * n + 9) 10) as Hd.
  pose proof (Nat.mod_upper_bound (7 * n + 9) 10) as Hm.
  lia.
Qed.

Lemma overlapsSome_spec (catalogTokens : list jsstring) (token : jsstring) :
  overlapsSome catalogTokens token = true
  <-> exists c, In c catalogTokens /\ (Substring token c \/ Substring c token).
Proof.
  unfold overlapsSome. rewrite existsb_exists.
  split; intros [c [Hin H]]; exists c; split; auto.
  - apply orb_true_iff in H. now rewrite <- !JsStringFacts.includes_spec.
  - apply orb_true_iff. now rewrite !JsStringFacts.includes_spec.
Qed.

(** C4: for a product of the same category, the fuzzy tier matches exactly
    when the number of sale tokens (split on white space, longer than 2
    characters) that overlap some catalog token is at least
    ceil(0.7 x number of sale tokens); a token overlaps when some catalog
    token contains it, or it contains some catalog token, as a substring. *)
Theorem fuzzy_tier_token_overlap
    (saleName saleCategory : jsstring) (product : Product) :
  normalizeCategory (category product) = normalizeCategory saleCategory ->
  let saleTokens := tokensLongerThan2 (normalizeProductName saleName) in
  let catalogTokens := tokensLongerThan2 (normalizeProductName (name product)) in
  let matched := filter (overlapsSome catalogTokens) saleTokens in
  (fuzzyMatch (normalizeProductName saleName) (normalizeCategory saleCategory)
              product = true
   <-> (ceil70 (length saleTokens) <= length matched)%nat)
  /\ ((ceil70 (length saleTokens) <= length matched)%nat
      <-> (7 * length saleTokens <= 10 * length matched)%nat)
  /\ (forall token,
        In token matched
        <-> In token saleTokens
            /\ exists c, In c catalogTokens
                         /\ (Substring token c \/ Substring c token)).
Proof.
  intros Hcat. cbv zeta. split; [|split].
  - unfold fuzzyMatch. rewrite Hcat, JsStringFacts.eqb_refl. simpl.
    rewrite !NormalizeFacts.mainWords_tokens. apply Nat.leb_le.
  - apply ceil70_le.
  - intros token. rewrite filter_In, overlapsSome_spec. reflexivity.
Qed.

Lemma fuzzy_tier_token_overlap_witness :
  let product := Sample.product "p1" "Marlboro Gold Original" "Tabac" 50 10 in
  let saleName := JsString.lit "marlboro original red 20s" in
  let saleCategory := JsString.lit " tabac" in
  let saleTokens := tokensLongerThan2 (normalizeProductName saleName) in
  let catalogTokens := tokensLongerThan2 (normalizeProductName (name product)) in
  let matched := filter (overlapsSome catalogTokens) saleTokens in
  length saleTokens = 3%nat /\ length matched = 2%nat
  /\ (fuzzyMatch (normalizeProductName saleName) (normalizeCategory saleCategory)
                 product = true
      <-> (ceil70 (length saleTokens) <= length matched)%nat).
Proof.
  split; [reflexivity|]. split; [reflexivity|].
  apply (proj1 (fuzzy_tier_token_overlap
                  (JsString.lit "marlboro original red 20s")
                  (JsString.lit " tabac")
                  (Sample.product "p1" "Marlboro Gold Original" "Tabac" 50 10)
                  eq_refl)).
Defined.

(** ** Maps *)

Module JsMapFacts.
Section Facts.
Variable V : Type.
Implicit Types (m : JsMap.t V) (k : jsstring) (v : V).

Lemma get_set_eq m k v : JsMap.get k (JsMap.set k v m) = Some v.
Proof.
  induction m as [|[k' v'] m IH]; simpl.
  - now rewrite JsStringFacts.eqb_refl.
  - destruct (JsString.eqb k k') eqn:E; simpl; now rewrite E.
Qed.

Lemma get_set_neq m k k' v :
  k <> k' -> JsMap.get k' (JsMap.set k v m) = JsMap.get k' m.
Proof.
  intros Hne. induction m as [|[k0 v0] m IH]; simpl.
  - apply not_eq_sym, JsStringFacts.eqb_neq in Hne. now rewrite Hne.
  - destruct (JsString.eqb k k0) eqn:E; simpl.
    + apply JsStringFacts.eqb_eq in E. subst k0.
      apply not_eq_sym, JsStringFacts.eqb_neq in Hne. now rewrite Hne.
    + now rewrite IH.
Qed.

Lemma set_keys m k v k' :
  In k' (map fst (JsMap.set k v m)) <-> k' = k \/ In k' (map fst m).
Proof.
  induction m as [|[k0 v0] m IH]; simpl.
  - intuition congruence.
  - destruct (JsString.eqb k k0) eqn:E; simpl.
    + apply JsStringFacts.eqb_eq in E. subst k0. intuition congruence.
    + rewrite IH. tauto.
Qed.

Lemma set_NoDup m k v :
  NoDup (map fst m) -> NoDup (map fst (JsMap.set k v m)).
Proof.
  induction m as [|[k0 v0] m IH]; simpl; intros Hnd.
  - constructor; [tauto | constructor].
  - inversion Hnd as [|? ? Hnotin Hrest]; subst.
    destruct (JsString.eqb k k0) eqn:E; simpl.
    + now constructor.
    + constructor; [|auto]. rewrite set_keys. intros [->|Hin]; [|tauto].
      now rewrite JsStringFacts.eqb_refl in E.
Qed.

Lemma get_Some_In m k v : JsMap.get k m = Some v -> In (k, v) m.
Proof.
  induction m as [|[k0 v0] m IH]; simpl; [discriminate|].
  destruct (JsString.eqb k k0) eqn:E; [|auto].
  apply JsStringFacts.eqb_eq in E. subst k0.
  intros H. injection H as ->. now left.
Qed.

(** With distinct keys every entry is the one [get] returns. *)
Lemma get_In m k v :
  NoDup (map fst m) -> In (k, v) m -> JsMap.get k m = Some v.
Proof.
  induction m as [|[k0 v0] m IH]; simpl; [tauto|].
  intros Hnd Hin. inversion Hnd as [|? ? Hnotin Hrest]; subst.
  destruct Hin as [Heq|Hin].
  - injection Heq as -> ->. now rewrite JsStringFacts.eqb_refl.
  - destruct (JsString.eqb k k0) eqn:E; [|auto].
    apply JsStringFacts.eqb_eq in E. subst k0. exfalso. apply Hnotin.
    change k with (fst (k, v)). now apply in_map.
Qed.
End Facts.
End JsMapFacts.

(** ** Grouping of the sales *)

Lemma buildSalesProductMap_snoc (sales : list RegisterSale) (sale : RegisterSale) :
  buildSalesProductMap (sales ++ [sale])
  = addSale (buildSalesProductMap sales) sale.
Proof. unfold buildSalesProductMap. now rewrite fold_left_app. Qed.

Lemma groupOf_snoc (sales : list RegisterSale) (sale : RegisterSale) :
  groupOf (sales ++ [sale])
  = Some match groupOf sales with
         | Some existing => foldSale existing sale
         | None => firstSale sale
         end.
Proof.
  destruct sales as [|first rest]; simpl; [reflexivity|].
  now rewrite fold_left_app.
Qed.

Lemma buildSalesProductMap_NoDup (sales : list RegisterSale) :
  NoDup (map fst (buildSalesProductMap sales)).
Proof.
  induction sales as [|sale sales IH] using rev_ind; [constructor|].
  rewrite buildSalesProductMap_snoc. unfold addSale.
  destruct (JsMap.get (productKey sale) (buildSalesProductMap sales));
    now apply JsMapFacts.set_NoDup.
Qed.

(** The entry of a key is folded from the sales of that key, in order. *)
Lemma get_buildSalesProductMap
    (registerSales : list RegisterSale) (key : jsstring) :
  JsMap.get key (buildSalesProductMap registerSales)
  = groupOf (salesOfKey key registerSales).
Proof.
  induction registerSales as [|sale sales IH] using rev_ind; [reflexivity|].
  rewrite buildSalesProductMap_snoc. unfold salesOfKey in *.
  rewrite filter_app. cbn [filter]. unfold addSale.
  destruct (JsString.eqb (productKey sale) key) eqn:E.
  - apply JsStringFacts.eqb_eq in E. subst key.
    rewrite groupOf_snoc, <- IH.
    destruct (JsMap.get (productKey sale) (buildSalesProductMap sales));
      apply JsMapFacts.get_set_eq.
  - rewrite app_nil_r, <- IH. apply JsStringFacts.eqb_neq in E.
    destruct (JsMap.get (productKey sale) (buildSalesProductMap sales));
      now apply JsMapFacts.get_set_neq.
Qed.

(** C6, as the code has it: the sales are grouped by the key made of the
    trimmed, lower-cased name and category joined by a bar, and by nothing
    else.  The entry of a key is folded from exactly the sales with that
    key, in order; the keys of the map are distinct; every sale has the
    entry of its key.  So two sales share a group exactly when their keys
    are equal. *)
Theorem sync_groups_by_productKey
    (registerSales : list RegisterSale) (key : jsstring) :
  JsMap.get key (buildSalesProductMap registerSales)
  = groupOf (salesOfKey key registerSales)
  /\ NoDup (map fst (buildSalesProductMap registerSales))
  /\ (In key (map productKey registerSales)
      <-> exists salesData,
            In (key, salesData) (buildSalesProductMap registerSales)).
Proof.
  split; [apply get_buildSalesProductMap|].
  split; [apply buildSalesProductMap_NoDup|].
  split.
  - intros Hin. apply in_map_iff in Hin as (sale & <- & Hin).
    pose proof (get_buildSalesProductMap registerSales (productKey sale)) as Hg.
    destruct (salesOfKey (productKey sale) registerSales) as [|first rest] eqn:E.
    + exfalso. assert (Hs : In sale (salesOfKey (productKey sale) registerSales)).
      { apply filter_In. split; [assumption | apply JsStringFacts.eqb_refl]. }
      rewrite E in Hs. exact Hs.
    + simpl in Hg. eexists. apply JsMapFacts.get_Some_In. exact Hg.
  - intros [salesData Hin].
    apply JsMapFacts.get_In in Hin; [|apply buildSalesProductMap_NoDup].
    rewrite get_buildSalesProductMap in Hin.
    destruct (salesOfKey key registerSales) as [|first rest] eqn:E;
      [discriminate|].
    assert (Hf : In first (salesOfKey key registerSales))
      by (rewrite E; now left).
    apply filter_In in Hf as [Hf Hk]. apply JsStringFacts.eqb_eq in Hk.
    subst key. now apply in_map.
Qed.

(** C6 as stated fails: two names that the normalizer identifies are two
    groups. *)
Lemma sync_groups_not_by_normalized_name :
  let s1 := Sample.sale "Coca Cola 100S" "Boissons" 2 (3 # 2) 0 in
  let s2 := Sample.sale "COCA COLA." "boissons" 1 (3 # 2) 0 in
  normalizeProductName (sale_product s1) = normalizeProductName (sale_product s2)
  /\ normalizeCategory (sale_category s1) = normalizeCategory (sale_category s2)
  /\ productKey s1 <> productKey s2
  /\ map fst (buildSalesProductMap [s1; s2])
     = [JsString.lit "coca cola 100s|boissons"; JsString.lit "coca cola.|boissons"]
  /\ JsMap.get (productKey s1) (buildSalesProductMap [s1; s2])
     <> JsMap.get (productKey s2) (buildSalesProductMap [s1; s2]).
Proof. repeat split; try reflexivity; discriminate. Qed.

(** ** Batches *)

Lemma synthesizeFrom_app (env : SyncEnv) (a b : list (jsstring * SalesData))
    (n : nat) :
  synthesizeFrom env n (a ++ b)
  = synthesizeFrom env n a ++ synthesizeFrom env (n + length a) b.
Proof.
  revert n. induction a as [|x a IH]; intros n; simpl.
  - now rewrite Nat.add_0_r.
  - now rewrite IH, Nat.add_succ_comm.
Qed.

Lemma synthesizeFrom_nth (env : SyncEnv) (l : list (jsstring * SalesData))
    (n i : nat) (entry : jsstring * SalesData) :
  nth_error l i = Some entry ->
  nth_error (synthesizeFrom env n l) i = Some (synthesize env (n + i) (snd entry)).
Proof.
  revert n i. induction l as [|x l IH]; intros n [|i]; simpl; try discriminate.
  - intros H. injection H as ->. now rewrite Nat.add_0_r.
  - intros H. rewrite (IH (S n) i H). now rewrite Nat.add_succ_comm.
Qed.

Lemma firstn_add (A : Type) (a b : nat) (l : list A) :
  firstn (a + b) l = firstn a l ++ firstn b (skipn a l).
Proof.
  revert l. induction a as [|a IH]; intros l; simpl; [reflexivity|].
  destruct l as [|x l]; simpl.
  - now rewrite firstn_nil.
  - now rewrite IH.
Qed.

Section Batches.
Variable env : SyncEnv.
Variable size : nat.
Hypothesis size_pos : 0 < size.
Variable missing : list (jsstring * SalesData).

Lemma productsFrom_past (i : nat) :
  length missing <= i -> productsFrom env missing i = [].
Proof. intros H. unfold productsFrom. now rewrite skipn_all2. Qed.

Lemma productsFrom_batch (i : nat) :
  productsFrom env missing i
  = synthesizeFrom env i (firstn size (skipn i missing))
    ++ productsFrom env missing (i + size).
Proof.
  unfold productsFrom.
  rewrite <- (firstn_skipn size (skipn i missing)) at 1.
  rewrite synthesizeFrom_app, skipn_skipn, (Nat.add_comm size i).
  f_equal.
  destruct (Nat.le_gt_cases size (length (skipn i missing))) as [Hle|Hgt].
  - now rewrite firstn_length_le.
  - rewrite length_skipn in Hgt.
    rewrite (skipn_all2 missing (n := i + size)) by lia. reflexivity.
Qed.

(** A loop that ends normally has created and stored every product. *)
Lemma commitBatches_returned (fuel i : nat) (created store c s : list Product) :
  length missing <= i + fuel * size ->
  commitBatches env size fuel i missing created store = (Some c, s) ->
  c = created ++ productsFrom env missing i
  /\ s = store ++ productsFrom env missing i.
Proof.
  revert i created store.
  induction fuel as [|fuel IH]; intros i created store Hfuel; simpl.
  - intros H. injection H as <- <-.
    rewrite productsFrom_past by lia. now rewrite !app_nil_r.
  - destruct (i <? length missing) eqn:Hi.
    + destruct (commitOk env (i / size)); [|discriminate].
      intros H. apply IH in H; [|lia].
      rewrite (productsFrom_batch i), !app_assoc. exact H.
    + apply Nat.ltb_ge in Hi. intros H. injection H as <- <-.
      rewrite productsFrom_past by lia. now rewrite !app_nil_r.
Qed.

(** When every commit succeeds the loop ends normally. *)
Lemma commitBatches_all_ok (fuel i : nat) (created store : list Product) :
  (forall j, j < length missing -> commitOk env (j / size) = true) ->
  exists c s, commitBatches env size fuel i missing created store = (Some c, s).
Proof.
  intros Hok. revert i created store.
  induction fuel as [|fuel IH]; intros i created store; simpl; [eauto|].
  destruct (i <? length missing) eqn:Hi; [|eauto].
  apply Nat.ltb_lt in Hi. rewrite (Hok i Hi). apply IH.
Qed.

(** When the commit of the batch [n] batches after index [i] is the first
    to fail, the loop stops there: the batches before it are stored. *)
Lemma commitBatches_fail (n fuel i : nat) (created store : list Product) :
  n < fuel ->
  i + n * size < length missing ->
  (forall j, j < n -> commitOk env ((i + j * size) / size) = true) ->
  commitOk env ((i + n * size) / size) = false ->
  commitBatches env size fuel i missing created store
  = (None, store ++ synthesizeFrom env i (firstn (n * size) (skipn i missing))).
Proof.
  revert fuel i created store.
  induction n as [|n IH]; intros fuel i created store Hfuel Hlen Hok Hfail;
    (destruct fuel as [|fuel]; [lia|]); cbn [commitBatches].
  - assert (Hi : (i <? length missing) = true) by (apply Nat.ltb_lt; lia).
    rewrite Hi. rewrite Nat.mul_0_l, Nat.add_0_r in Hfail. rewrite Hfail.
    simpl. now rewrite app_nil_r.
  - assert (Hi : (i <? length missing) = true) by (apply Nat.ltb_lt; lia).
    rewrite Hi. pose proof (Hok 0 ltac:(lia)) as H0.
    rewrite Nat.mul_0_l, Nat.add_0_r in H0. rewrite H0.
    rewrite (IH fuel (i + size)); try lia.
    + f_equal. rewrite <- app_assoc. f_equal.
      replace (S n * size) with (size + n * size) by lia.
      rewrite firstn_add, synthesizeFrom_app, skipn_skipn.
      rewrite firstn_length_le by (rewrite length_skipn; lia).
      now rewrite (Nat.add_comm size i).
    + intros j Hj. replace (i + size + j * size) with (i + S j * size) by lia.
      apply Hok. lia.
    + replace (i + size + n * size) with (i + S n * size) by lia. exact Hfail.
Qed.
End Batches.

(** ** The sync operation *)

(** What an entry holds after more sales are folded into it. *)
Lemma fold_foldSale (rest : list RegisterSale) (existing : SalesData) :
  let entry := fold_left foldSale rest existing in
  totalQuantitySold entry = (totalQuantitySold existing + sumQuantity rest)%Z
  /\ averagePrice entry
     = runningMean (averagePrice existing) (salesCount existing)
                   (map sale_price rest)
  /\ salesCount entry = (salesCount existing + Z.of_nat (length rest))%Z
  /\ sd_name entry = sd_name existing
  /\ sd_category entry = sd_category existing.
Proof.
  revert existing. induction rest as [|sale rest IH]; intros existing.
  - simpl. repeat split; try reflexivity; unfold sumQuantity; simpl; lia.
  - cbn [fold_left map runningMean]. cbv zeta in *.
    destruct (IH (foldSale existing sale)) as (Hq & Ha & Hc & Hn & Hcat).
    rewrite Hq, Ha, Hc, Hn, Hcat, sumQuantity_cons. cbn [foldSale
      totalQuantitySold averagePrice salesCount sd_name sd_category length].
    repeat split; try reflexivity; lia.
Qed.

(** An entry of the map is the fold of the sales of its key. *)
Lemma entry_of_group (registerSales : list RegisterSale)
    (key : jsstring) (salesData : SalesData) :
  In (key, salesData) (buildSalesProductMap registerSales) ->
  exists first rest,
    salesOfKey key registerSales = first :: rest
    /\ salesData = fold_left foldSale rest (firstSale first).
Proof.
  intros Hin.
  apply JsMapFacts.get_In in Hin; [|apply buildSalesProductMap_NoDup].
  rewrite get_buildSalesProductMap in Hin.
  destruct (salesOfKey key registerSales) as [|first rest]; [discriminate|].
  injection Hin as <-. now exists first, rest.
Qed.

Lemma missingProducts_matched (registerSales : list RegisterSale)
    (products : list Product) :
  (forall entry, In entry (buildSalesProductMap registerSales) ->
     findMatchingProduct (sd_name (snd entry)) (sd_category (snd entry)) products
     <> None) ->
  missingProducts registerSales products = [].
Proof.
  intros Hall. unfold missingProducts.
  induction (buildSalesProductMap registerSales) as [|entry m IH];
    [reflexivity|]. simpl.
  pose proof (Hall entry (or_introl eq_refl)) as He.
  destruct (findMatchingProduct _ _ products); [|congruence].
  apply IH. intros e Hin. apply Hall. now right.
Qed.

(** The result of the sync in terms of the loop. *)
Lemma autoSync_returned (env : SyncEnv) (registerSales : list RegisterSale)
    (products store created store' : list Product) (summary : SyncSummary) :
  autoSyncProductsFromSales env registerSales products store
  = (Returned created summary, store') ->
  created = synthesizeFrom env 0 (missingProducts registerSales products)
  /\ store' = store ++ created.
Proof.
  unfold autoSyncProductsFromSales.
  destruct registerSales as [|sale sales].
  - intros H. injection H as <- _ <-. now rewrite app_nil_r.
  - destruct (missingProducts (sale :: sales) products) as [|entry missing] eqn:Hm.
    + intros H. injection H as <- _ <-. now rewrite app_nil_r.
    + destruct (commitBatches _ _ _ _ _ _ _) as [[c|] s] eqn:Hc; [|discriminate].
      intros H. injection H as <- _ <-.
      apply commitBatches_returned in Hc.
      * destruct Hc as [-> ->]. split; reflexivity.
      * unfold BATCH_SIZE. lia.
      * unfold BATCH_SIZE. lia.
Qed.

(** [ceilDiv10 q] is the least integer that is at least [q / 10]. *)
Lemma ceilDiv10_least (q : Z) :
  (10 * (ceilDiv10 q - 1) < q <= 10 * ceilDiv10 q)%Z.
Proof.
  unfold ceilDiv10.
  pose proof (Z.div_mod (- q) 10 ltac:(lia)) as Hdiv.
  pose proof (Z.mod_pos_bound (- q) 10 ltac:(lia)) as Hmod.
  lia.
Qed.

Module PriceFacts.
Local Open Scope Q_scope.

(** [Math.round(y)] is the integer within one half of [y], the larger one
    of the two when [y] is half way. *)
Lemma mathRound_nearest (y : Q) :
  inject_Z (JsNumber.mathRound y) - (1 # 2) <= y
  /\ y < inject_Z (JsNumber.mathRound y) + (1 # 2).
Proof.
  unfold JsNumber.mathRound.
  pose proof (Qfloor_le (y + (1 # 2))) as Hle.
  pose proof (Qlt_floor (y + (1 # 2))) as Hlt.
  rewrite inject_Z_plus in Hlt. change (inject_Z 1) with 1 in Hlt.
  split; lra.
Qed.

(** [Math.round(x * 100) / 100] is within half a hundredth of [x], up to
    the error of the two roundings. *)
Lemma round2_within (x : Q) :
  Qabs (round2 x - x) <= (1 # 200) + (Qabs x + 1) * JsNumber.pow2 (-51).
Proof.
  unfold round2, JsNumber.div, JsNumber.mul.
  pose proof (JsNumberFacts.round_error (x * 100)) as E1.
  set (s := JsNumber.round (x * 100)) in *.
  pose proof (mathRound_nearest s) as [Hlo Hhi].
  set (c := inject_Z (JsNumber.mathRound s)) in *.
  pose proof (JsNumberFacts.round_error (c / 100)) as E3.
  set (p := JsNumber.round (c / 100)) in *.
  assert (Hq : 100 * (c / 100) == c) by (field; discriminate).
  set (q := c / 100) in *.
  rewrite Qabs_Qmult in E1. change (Qabs 100) with 100 in E1.
  pose proof (Qabs_nonneg x) as HA0. pose proof (Qle_Qabs x) as HA1.
  pose proof (Qle_Qabs (- x)) as HA2. rewrite Qabs_opp in HA2.
  set (A := Qabs x) in *.
  assert (Heta : JsNumber.pow2 (-1075) <= JsNumber.pow2 (-60))
    by (apply JsNumberFacts.pow2_le; lia).
  pose proof (JsNumberFacts.pow2_pos (-1075)) as Heta0.
  set (eta := JsNumber.pow2 (-1075)) in *.
  change (JsNumber.pow2 (-60)) with (1 # 1152921504606846976) in Heta.
  change (JsNumber.pow2 (-53)) with (1 # 9007199254740992) in E1, E3.
  change (JsNumber.pow2 (-51)) with (1 # 2251799813685248).
  apply Qabs_Qle_condition in E1.
  assert (HC : Qabs q <= A + A * (1 # 9007199254740992) + 1)
    by (apply Qabs_Qle_condition; split; lra).
  pose proof (Qabs_nonneg q) as HQ0.
  set (C := Qabs q) in *.
  apply Qabs_Qle_condition in E3.
  apply Qabs_Qle_condition. split; lra.
Qed.

End PriceFacts.

(** C7: the product synthesized for the i-th missing group has
    [initialStock = max(total, 10)], [stock = 0] and
    [minStock = max(tenth, 5)], where [total] is the sum of the quantities of
    the group's sales and [tenth] the least integer that is at least
    [total / 10].  Its price is the running average of the group rounded to
    2 decimals: the binary64 number nearest to [cents / 100], where [cents]
    is the integer nearest to 100 times the running average, the larger one
    at a tie, the product being that of JavaScript numbers; it is within half
    a hundredth of the running average, up to the error of the two roundings.
    The running average is the incremental mean
    [(mean * count + price) / (count + 1)] over the prices of the group's
    sales, weighted by the number of sales folded in so far; quantities do
    not enter it.  A sync that returns lists this product at place i and has
    stored it. *)
Theorem sync_synthesized_product
    (env : SyncEnv) (registerSales : list RegisterSale)
    (products : list Product)
    (i : nat) (key : jsstring) (salesData : SalesData) :
  nth_error (missingProducts registerSales products) i = Some (key, salesData) ->
  let group := salesOfKey key registerSales in
  let total := sumQuantity group in
  let mean := incrementalMean (map sale_price group) in
  let product := synthesize env i salesData in
  initialStock product = Z.max total 10
  /\ stock product = 0%Z
  /\ (exists tenth,
        minStock product = Z.max tenth 5
        /\ (10 * (tenth - 1) < total <= 10 * tenth)%Z)
  /\ (exists cents,
        price product = JsNumber.div (inject_Z cents) 100
        /\ (inject_Z cents - (1 # 2) <= JsNumber.mul mean 100)%Q
        /\ (JsNumber.mul mean 100 < inject_Z cents + (1 # 2))%Q
        /\ JsNumber.Binary64 (price product)
        /\ forall d, JsNumber.Binary64 d ->
             (Qabs (price product - inject_Z cents / 100)
              <= Qabs (d - inject_Z cents / 100))%Q)
  /\ (Qabs (price product - mean)
      <= (1 # 200) + (Qabs mean + 1) * JsNumber.pow2 (-51))%Q
  /\ averagePrice salesData = mean
  /\ totalQuantitySold salesData = total
  /\ salesCount salesData = Z.of_nat (length group)
  /\ forall store created store' summary,
       autoSyncProductsFromSales env registerSales products store
       = (Returned created summary, store') ->
       nth_error created i = Some product /\ In product store'.
Proof.
  intros Hnth. cbv zeta.
  apply nth_error_In in Hnth as Hin.
  apply filter_In in Hin as [Hin _].
  apply entry_of_group in Hin as (first & rest & Hgroup & Hdata).
  pose proof (fold_foldSale rest (firstSale first)) as Hfold. cbv zeta in Hfold.
  rewrite <- Hdata in Hfold. destruct Hfold as (Hq & Ha & Hc & _ & _).
  cbn [firstSale totalQuantitySold averagePrice salesCount] in Hq, Ha, Hc.
  assert (Hmean : averagePrice salesData
                  = incrementalMean (map sale_price (first :: rest)))
    by exact Ha.
  assert (Htotal : totalQuantitySold salesData = sumQuantity (first :: rest))
    by (rewrite sumQuantity_cons; exact Hq).
  rewrite Hgroup.
  split; [cbn [synthesize initialStock]; now rewrite Htotal|].
  split; [reflexivity|].
  split.
  { exists (ceilDiv10 (sumQuantity (first :: rest))).
    split; [cbn [synthesize minStock]; now rewrite Htotal|].
    apply ceilDiv10_least. }
  split.
  { exists (JsNumber.mathRound
              (JsNumber.mul (incrementalMean (map sale_price (first :: rest)))
                            100)).
    split; [cbn [synthesize price]; unfold round2; now rewrite Hmean|].
    split; [apply PriceFacts.mathRound_nearest|].
    split; [apply PriceFacts.mathRound_nearest|].
    split; [apply JsNumberFacts.round_binary64|].
    intros d Hd. cbn [synthesize price]. unfold round2. rewrite Hmean.
    now apply JsNumberFacts.round_nearest. }
  split; [cbn [synthesize price]; rewrite Hmean;
          apply PriceFacts.round2_within|].
  split; [exact Hmean|].
  split; [exact Htotal|]. split; [rewrite Hc; cbn [length]; lia|].
  intros store created store' summary Hsync.
  apply autoSync_returned in Hsync as [Hcreated Hstore].
  pose proof (synthesizeFrom_nth env _ 0 _ Hnth) as Hp.
  rewrite <- Hcreated in Hp. cbn [Nat.add snd] in Hp.
  split; [exact Hp|].
  rewrite Hstore. apply in_or_app. right. exact (nth_error_In _ _ Hp).
Qed.

Lemma sync_synthesized_product_witness :
  let env := Sample.env (fun _ => true) in
  let product := synthesize env 0 Sample.crispsEntry in
  nth_error (missingProducts Sample.crispsSales Sample.catalog) 0
  = Some (JsString.lit "pringles|snacks", Sample.crispsEntry)
  /\ fst (autoSyncProductsFromSales env Sample.crispsSales Sample.catalog [])
     = Returned [product] (generateSyncSummary [product] 2)
  /\ initialStock product = 123%Z
  /\ stock product = 0%Z
  /\ minStock product = 13%Z
  /\ averagePrice Sample.crispsEntry
     = (2816157141990113 # 281474976710656)%Q
  /\ price product = 10%Q.
Proof.
  cbv zeta.
  assert (Hnth : nth_error (missingProducts Sample.crispsSales Sample.catalog) 0
                 = Some (JsString.lit "pringles|snacks", Sample.crispsEntry))
    by (vm_compute; reflexivity).
  destruct (sync_synthesized_product (Sample.env (fun _ => true))
              Sample.crispsSales Sample.catalog 0 Hnth)
    as (Hi & Hs & (tenth & Hm & Htenth) & (cents & Hp & Hlo & Hhi & _)
        & _ & Ha & _).
  assert (Htotal : sumQuantity
                     (salesOfKey (JsString.lit "pringles|snacks")
                                 Sample.crispsSales) = 123%Z)
    by (vm_compute; reflexivity).
  assert (Hmean : incrementalMean
                    (map sale_price
                         (salesOfKey (JsString.lit "pringles|snacks")
                                     Sample.crispsSales))
                  = (2816157141990113 # 281474976710656)%Q)
    by (vm_compute; reflexivity).
  assert (Hscaled : JsNumber.mul (2816157141990113 # 281474976710656) 100
                    = (8800491068719103 # 8796093022208)%Q)
    by (vm_compute; reflexivity).
  rewrite Htotal in Hi, Htenth. rewrite Hmean in Hlo, Hhi, Ha.
  rewrite Hscaled in Hlo, Hhi.
  assert (tenth = 13%Z) as -> by lia.
  assert (cents = 1000%Z) as ->
    by (unfold Qle, Qlt in Hlo, Hhi; cbn in Hlo, Hhi; lia).
  split; [exact Hnth|]. split; [vm_compute; reflexivity|].
  split; [exact Hi|]. split; [exact Hs|]. split; [exact Hm|].
  split; [exact Ha|].
  rewrite Hp. vm_compute. reflexivity.
Defined.

Lemma batch_of_index (j : nat) : (0 + j * BATCH_SIZE) / BATCH_SIZE = j.
Proof. rewrite Nat.add_0_l. apply Nat.div_mul. discriminate. Qed.

(** C8, as the code has it: when every batch commits, the sync returns as
    created exactly the products it stored; when the commit of batch [b] is
    the first to fail, the sync throws and returns no list, while the
    products of the batches before [b] stay stored. *)
Theorem sync_commit_failure_throws
    (env : SyncEnv) (registerSales : list RegisterSale)
    (products store : list Product) :
  let missing := missingProducts registerSales products in
  ((forall b, b * BATCH_SIZE < length missing -> commitOk env b = true) ->
   exists summary,
     autoSyncProductsFromSales env registerSales products store
     = (Returned (synthesizeFrom env 0 missing) summary,
        store ++ synthesizeFrom env 0 missing))
  /\ (forall b,
        b * BATCH_SIZE < length missing ->
        (forall b', b' < b -> commitOk env b' = true) ->
        commitOk env b = false ->
        autoSyncProductsFromSales env registerSales products store
        = (Thrown syncError,
           store ++ synthesizeFrom env 0 (firstn (b * BATCH_SIZE) missing))).
Proof.
  cbv zeta. split.
  - intros Hok.
    destruct (autoSyncProductsFromSales env registerSales products store)
      as [[created summary|message] store'] eqn:Hsync.
    + apply autoSync_returned in Hsync as [-> ->]. now exists summary.
    + exfalso. unfold autoSyncProductsFromSales in Hsync.
      destruct registerSales as [|sale sales]; [discriminate|].
      destruct (missingProducts (sale :: sales) products)
        as [|entry missing] eqn:Hm; [discriminate|].
      destruct (commitBatches_all_ok env BATCH_SIZE (entry :: missing)
                  (length (entry :: missing)) 0 [] store) as (c & s & Hc).
      * intros j Hj. apply Hok.
        pose proof (Nat.Div0.mul_div_le j BATCH_SIZE). lia.
      * rewrite Hc in Hsync. discriminate.
  - intros b Hb Hok Hfail. unfold autoSyncProductsFromSales.
    destruct registerSales as [|sale sales]; [simpl in Hb; lia|].
    destruct (missingProducts (sale :: sales) products)
      as [|entry missing] eqn:Hm; [simpl in Hb; lia|].
    rewrite (commitBatches_fail env (size := BATCH_SIZE) ltac:(unfold BATCH_SIZE; lia)
               (entry :: missing) (n := b)).
    + reflexivity.
    + unfold BATCH_SIZE in Hb. lia.
    + exact Hb.
    + intros j Hj. rewrite batch_of_index. now apply Hok.
    + now rewrite batch_of_index.
Qed.

Lemma sync_commit_failure_throws_witness :
  let env := Sample.env (fun b => b =? 0) in
  let registerSales := Sample.distinctSales 201 in
  autoSyncProductsFromSales env registerSales [] []
  = (Thrown syncError,
     [] ++ synthesizeFrom env 0
             (firstn (1 * BATCH_SIZE) (missingProducts registerSales []))).
Proof.
  cbv zeta.
  apply (proj2 (sync_commit_failure_throws
                  (Sample.env (fun b => b =? 0)) (Sample.distinctSales 201)
                  [] []) 1).
  - apply Nat.ltb_lt. vm_compute. reflexivity.
  - intros [|b'] Hb'; [reflexivity | lia].
  - reflexivity.
Defined.

(** C8 as stated fails: with 201 missing products, a first batch
    that commits and a second one that does not, the sync throws; the 200
    products of the first batch are stored and no list reports them. *)
Lemma sync_hides_committed_batches :
  let env := Sample.env (fun b => b =? 0) in
  let outcome := autoSyncProductsFromSales env (Sample.distinctSales 201) [] [] in
  length (missingProducts (Sample.distinctSales 201) []) = 201
  /\ commitOk env 0 = true /\ commitOk env 1 = false
  /\ fst outcome = Thrown syncError
  /\ length (snd outcome) = 200
  /\ forall created summary, fst outcome <> Returned created summary.
Proof.
  cbv zeta.
  assert (H : fst (autoSyncProductsFromSales (Sample.env (fun b => b =? 0))
                     (Sample.distinctSales 201) [] [])
              = Thrown syncError) by (vm_compute; reflexivity).
  split; [vm_compute; reflexivity|].
  split; [reflexivity|]. split; [reflexivity|].
  split; [exact H|]. split; [vm_compute; reflexivity|].
  intros created summary. rewrite H. discriminate.
Qed.

(** C9, as the code has it: with no sale at all the sync returns an empty
    list and the summary that no sales data is available; with at least one
    sale and every group matched by the catalog it returns an empty list
    and the summary that all the sold products exist already; both are
    returned results, nothing is thrown and nothing is stored. *)
Theorem sync_nothing_to_do
    (env : SyncEnv) (registerSales : list RegisterSale)
    (products store : list Product) :
  (registerSales = [] ->
   autoSyncProductsFromSales env registerSales products store
   = (Returned [] NoSalesData, store))
  /\ (registerSales <> [] ->
      (forall entry, In entry (buildSalesProductMap registerSales) ->
         findMatchingProduct (sd_name (snd entry)) (sd_category (snd entry))
                             products <> None) ->
      autoSyncProductsFromSales env registerSales products store
      = (Returned []
           (NothingToSync (JsMap.size (buildSalesProductMap registerSales))),
         store)).
Proof.
  split.
  - intros ->. reflexivity.
  - intros Hne Hall. unfold autoSyncProductsFromSales.
    destruct registerSales as [|sale sales]; [congruence|].
    now rewrite (missingProducts_matched _ _ Hall).
Qed.

Lemma sync_nothing_to_do_witness :
  let env := Sample.env (fun _ => false) in
  let registerSales := [Sample.sale "Coca Cola 100S" "Boissons" 2 (3 # 2) 0;
                        Sample.sale "coca" "boissons" 1 (3 # 2) 0] in
  autoSyncProductsFromSales env registerSales Sample.catalog []
  = (Returned [] (NothingToSync (JsMap.size (buildSalesProductMap registerSales))),
     []).
Proof.
  cbv zeta.
  apply (proj2 (sync_nothing_to_do
                  (Sample.env (fun _ => false))
                  [Sample.sale "Coca Cola 100S" "Boissons" 2 (3 # 2) 0;
                   Sample.sale "coca" "boissons" 1 (3 # 2) 0]
                  Sample.catalog [])).
  - discriminate.
  - intros entry Hin. vm_compute in Hin.
    destruct Hin as [<-|[<-|[]]]; vm_compute; discriminate.
Defined.

(** C9 as stated fails on an empty sale list: every group is
    matched, there is none, and the summary is the one for missing sales
    data, not the one saying that no new product is needed. *)
Lemma sync_no_sales_summary :
  let outcome := autoSyncProductsFromSales (Sample.env (fun _ => true))
                                           [] Sample.catalog [] in
  (forall entry, In entry (buildSalesProductMap []) ->
     findMatchingProduct (sd_name (snd entry)) (sd_category (snd entry))
                         Sample.catalog <> None)
  /\ outcome = (Returned [] NoSalesData, [])
  /\ forall n, fst outcome <> Returned [] (NothingToSync n).
Proof.
  cbv zeta. split; [intros entry []|]. split; [reflexivity|].
  intros n. discriminate.
Qed.

(** ** The statistics and the reconciliation *)

Module AggregateFacts.
Import StockView.

Lemma stockCalculationCache_snoc (products : list Product) (product : Product)
    (registerSales : list RegisterSale) :
  stockCalculationCache (products ++ [product]) registerSales
  = JsMap.set (id product) (calculateStockFinal product registerSales)
              (stockCalculationCache products registerSales).
Proof. unfold stockCalculationCache. now rewrite fold_left_app. Qed.

(** With distinct ids the cache holds the calculation of every product. *)
Lemma stockCalculationCache_get (products : list Product)
    (registerSales : list RegisterSale) (product : Product) :
  NoDup (map id products) -> In product products ->
  JsMap.get (id product) (stockCalculationCache products registerSales)
  = Some (calculateStockFinal product registerSales).
Proof.
  induction products as [|q products IH] using rev_ind; [intros _ []|].
  rewrite map_app, stockCalculationCache_snoc. cbn [map].
  intros Hnd Hin. apply NoDup_remove in Hnd as [Hnd Hq].
  rewrite app_nil_r in Hnd, Hq.
  apply in_app_or in Hin as [Hin|[->|[]]].
  - rewrite JsMapFacts.get_set_neq; [now apply IH|].
    intros Heq. apply Hq. rewrite Heq. now apply in_map.
  - apply JsMapFacts.get_set_eq.
Qed.

Lemma finalStockOf_reconciled (products : list Product)
    (registerSales : list RegisterSale) (product : Product) :
  NoDup (map id products) -> In product products ->
  finalStockOf (stockCalculationCache products registerSales) product
  = finalStock (calculateStockFinal product registerSales).
Proof.
  intros Hnd Hin. unfold finalStockOf.
  now rewrite stockCalculationCache_get by assumption.
Qed.

Lemma filter_length_ext (A : Type) (f g : A -> bool) (l : list A) :
  (forall x, In x l -> f x = g x) ->
  length (filter f l) = length (filter g l).
Proof. intros H. now rewrite (filter_ext_in _ _ _ H). Qed.

(** The out-of-stock counter counts the products reconciled to zero. *)
Lemma aggregate_outOfStock (products : list Product)
    (registerSales : list RegisterSale) :
  NoDup (map id products) ->
  outOfStock (aggregate products registerSales)
  = countOutOfStock (fun p => finalStock (calculateStockFinal p registerSales))
                    products.
Proof.
  intros Hnd. unfold aggregate.
  rewrite StockViewFacts.stockStats_outOfStock. unfold countOutOfStock.
  apply filter_length_ext. intros p Hp.
  now rewrite finalStockOf_reconciled by assumption.
Qed.

(** The low-stock counter agrees with the specification as long as no
    product is reconciled to a negative stock. *)
Lemma aggregate_lowStock_nonneg (products : list Product)
    (registerSales : list RegisterSale) :
  NoDup (map id products) ->
  (forall p, In p products ->
     (0 <= finalStock (calculateStockFinal p registerSales))%Z) ->
  lowStock (aggregate products registerSales)
  = countLowStock (fun p => finalStock (calculateStockFinal p registerSales))
                  products.
Proof.
  intros Hnd Hpos. unfold aggregate.
  rewrite StockViewFacts.stockStats_lowStock. unfold countLowStock.
  apply filter_length_ext. intros p Hp. unfold countedLow.
  rewrite finalStockOf_reconciled by assumption.
  specialize (Hpos p Hp). f_equal.
  destruct (Z.eqb_spec (finalStock (calculateStockFinal p registerSales)) 0)
    as [->|Hne]; [reflexivity|].
  symmetry. apply Z.ltb_lt. lia.
Qed.

End AggregateFacts.

(** For a product with a recorded initial stock, the record written back
    by [recalculateProductQuantities] satisfies the conservation law. *)
Lemma recalculateProduct_conservation (registerSales : list RegisterSale)
    (product : Product) :
  initialStock product <> 0%Z ->
  let updated := recalculateProduct registerSales product in
  (stock updated + StockModule.sold updated = initialStock updated)%Z.
Proof.
  intros Hne. cbv zeta. unfold recalculateProduct, StockModule.sold.
  cbn [stock quantitySold initialStock].
  apply Z.eqb_neq in Hne. rewrite Hne.
  unfold calculateStockFinal. cbn [finalStock validSales]. lia.
Qed.

(** * Further properties of the code *)

(** ** The matcher *)

Lemma tier_same_category (n c : jsstring) (p : Product) :
  exactMatch n c p = true \/ partialMatch n c p = true
  \/ fuzzyMatch n c p = true ->
  normalizeCategory (category p) = c.
Proof.
  unfold exactMatch, partialMatch, fuzzyMatch.
  intros [H|[H|H]]; apply JsStringFacts.eqb_eq.
  - now apply andb_true_iff in H as [_ H].
  - now apply andb_true_iff in H as [H _].
  - destruct (JsString.eqb (normalizeCategory (category p)) c);
      [reflexivity | discriminate].
Qed.

(** The matcher answers with the first product that one of its three
    passes accepts. *)
Lemma findMatchingProduct_Some (saleName saleCategory : jsstring)
    (products : list Product) (m : Product) :
  findMatchingProduct saleName saleCategory products = Some m ->
  In m products
  /\ (exactMatch (normalizeProductName saleName)
                 (normalizeCategory saleCategory) m = true
      \/ partialMatch (normalizeProductName saleName)
                      (normalizeCategory saleCategory) m = true
      \/ fuzzyMatch (normalizeProductName saleName)
                    (normalizeCategory saleCategory) m = true).
Proof.
  unfold findMatchingProduct.
  destruct (find (exactMatch _ _) products) as [x|] eqn:E1.
  { intros H. injection H as ->. apply find_some in E1. tauto. }
  destruct (find (partialMatch _ _) products) as [x|] eqn:E2.
  { intros H. injection H as ->. apply find_some in E2. tauto. }
  intros E3. apply find_some in E3. tauto.
Qed.

Lemma find_not_None (A : Type) (f : A -> bool) (l : list A) (x : A) :
  In x l -> f x = true -> find f l <> None.
Proof.
  intros Hin Hf Hnone. pose proof (find_none _ _ Hnone _ Hin). congruence.
Qed.

Lemma findMatchingProduct_found (saleName saleCategory : jsstring)
    (products : list Product) (p : Product) :
  In p products ->
  exactMatch (normalizeProductName saleName)
             (normalizeCategory saleCategory) p = true
  \/ partialMatch (normalizeProductName saleName)
                  (normalizeCategory saleCategory) p = true
  \/ fuzzyMatch (normalizeProductName saleName)
                (normalizeCategory saleCategory) p = true ->
  findMatchingProduct saleName saleCategory products <> None.
Proof.
  intros Hin H. unfold findMatchingProduct.
  destruct (find (exactMatch _ _) products) eqn:E1; [discriminate|].
  destruct (find (partialMatch _ _) products) eqn:E2; [discriminate|].
  destruct H as [H|[H|H]].
  - exfalso. exact (find_not_None _ _ _ Hin H E1).
  - exfalso. exact (find_not_None _ _ _ Hin H E2).
  - exact (find_not_None _ _ _ Hin H).
Qed.

(** X1: a match is always a product of the catalog whose lower-cased,
    trimmed category equals that of the sale: the matcher never crosses
    categories and never invents a product. *)
Theorem match_in_catalog_same_category
    (saleName saleCategory : jsstring) (products : list Product) (m : Product) :
  findMatchingProduct saleName saleCategory products = Some m ->
  In m products
  /\ normalizeCategory (category m) = normalizeCategory saleCategory.
Proof.
  intros H. apply findMatchingProduct_Some in H as [Hin Htier].
  split; [assumption|]. now apply tier_same_category in Htier.
Qed.

Lemma match_in_catalog_same_category_witness :
  let m := Sample.product "p1" "COCA COLA" " Boissons" 50 10 in
  let products := [Sample.product "p0" "Fanta" "snacks" 5 1; m] in
  In m products
  /\ normalizeCategory (category m) = normalizeCategory (JsString.lit "boissons").
Proof.
  apply (match_in_catalog_same_category
           (JsString.lit "Cola") (JsString.lit "boissons")
           [Sample.product "p0" "Fanta" "snacks" 5 1;
            Sample.product "p1" "COCA COLA" " Boissons" 50 10]).
  reflexivity.
Defined.

Lemma match_found_in_superset
    (saleName saleCategory : jsstring) (products products' : list Product) :
  (forall p, In p products -> In p products') ->
  findMatchingProduct saleName saleCategory products <> None ->
  findMatchingProduct saleName saleCategory products' <> None.
Proof.
  intros Hincl Hfound.
  destruct (findMatchingProduct saleName saleCategory products) as [m|] eqn:E;
    [|congruence].
  apply findMatchingProduct_Some in E as [Hin Htier].
  apply findMatchingProduct_found with (p := m); auto.
Qed.

(** X2: a sale that the catalog matches is still matched when products are
    added to the catalog (in any order). *)
Theorem match_kept_in_larger_catalog
    (saleName saleCategory : jsstring) (products products' : list Product) :
  (forall p, In p products -> In p products') ->
  findMatchingProduct saleName saleCategory products <> None ->
  findMatchingProduct saleName saleCategory products' <> None.
Proof. apply match_found_in_superset. Qed.

Lemma match_kept_in_larger_catalog_witness :
  findMatchingProduct (JsString.lit "Cola") (JsString.lit "boissons")
    (Sample.product "p0" "Fanta" "snacks" 5 1 :: Sample.catalog)
  <> None.
Proof.
  apply (@match_kept_in_larger_catalog
           (JsString.lit "Cola") (JsString.lit "boissons") Sample.catalog
           (Sample.product "p0" "Fanta" "snacks" 5 1 :: Sample.catalog)).
  - intros p Hp. now right.
  - discriminate.
Defined.

(** X3: a product of the catalog is matched by its own name and category,
    at the exact tier, by a product of the same normalized name and
    category. *)
Theorem catalog_product_matches_itself (products : list Product) (p : Product) :
  In p products ->
  exists m,
    findMatchingProductTier (name p) (category p) products = Some (Exact, m)
    /\ findMatchingProduct (name p) (category p) products = Some m
    /\ In m products
    /\ normalizeProductName (name m) = normalizeProductName (name p)
    /\ normalizeCategory (category m) = normalizeCategory (category p).
Proof.
  intros Hin.
  assert (Hp : exactMatch (normalizeProductName (name p))
                          (normalizeCategory (category p)) p = true).
  { unfold exactMatch. now rewrite !JsStringFacts.eqb_refl. }
  destruct (find (exactMatch (normalizeProductName (name p))
                             (normalizeCategory (category p))) products)
    as [m|] eqn:E; [|exfalso; exact (find_not_None _ _ _ Hin Hp E)].
  exists m. apply find_some in E as E'. destruct E' as [Hm He].
  unfold findMatchingProductTier, firstTier, findMatchingProduct. rewrite E.
  repeat split; try assumption.
  - unfold exactMatch in He. apply andb_true_iff in He as [He _].
    now apply JsStringFacts.eqb_eq.
  - unfold exactMatch in He. apply andb_true_iff in He as [_ He].
    now apply JsStringFacts.eqb_eq.
Qed.

Lemma catalog_product_matches_itself_witness :
  exists m,
    findMatchingProductTier (JsString.lit "COCA COLA") (JsString.lit "boissons")
                            Sample.catalog = Some (Exact, m)
    /\ findMatchingProduct (JsString.lit "COCA COLA") (JsString.lit "boissons")
                           Sample.catalog = Some m
    /\ In m Sample.catalog
    /\ normalizeProductName (name m)
       = normalizeProductName (JsString.lit "COCA COLA")
    /\ normalizeCategory (category m)
       = normalizeCategory (JsString.lit "boissons").
Proof.
  apply (catalog_product_matches_itself Sample.catalog
           (Sample.product "p1" "COCA COLA" "boissons" 50 10)).
  simpl. left. reflexivity.
Defined.

(** ** The normalizer *)

Module TrimFacts.
Import JsString.

Lemma lowerChar_idem (c : ascii) : lowerChar (lowerChar c) = lowerChar c.
Proof. destruct c as [[] [] [] [] [] [] [] []]; reflexivity. Qed.

Lemma isSpace_lowerChar (c : ascii) : isSpace (lowerChar c) = isSpace c.
Proof. destruct c as [[] [] [] [] [] [] [] []]; reflexivity. Qed.

Lemma lowerChar_not_upper (c : ascii) :
  between 65 90 (code (lowerChar c)) = false.
Proof. destruct c as [[] [] [] [] [] [] [] []]; reflexivity. Qed.

Lemma toLowerCase_idem (s : jsstring) :
  toLowerCase (toLowerCase s) = toLowerCase s.
Proof.
  unfold toLowerCase. rewrite map_map. apply map_ext. apply lowerChar_idem.
Qed.

Lemma toLowerCase_Blank (s : jsstring) : Blank s -> Blank (toLowerCase s).
Proof.
  unfold Blank, toLowerCase. rewrite !Forall_forall. intros H c Hc.
  apply in_map_iff in Hc as (x & <- & Hx). rewrite isSpace_lowerChar. auto.
Qed.

Lemma trimStart_Blank_app (pre s : jsstring) :
  Blank pre -> trimStart (pre ++ s) = trimStart s.
Proof. induction 1 as [|c pre Hc _ IH]; simpl; [reflexivity|]. now rewrite Hc. Qed.

Lemma trimStart_Blank (s : jsstring) : Blank s -> trimStart s = [].
Proof.
  intros H. rewrite <- (app_nil_r s). now rewrite trimStart_Blank_app.
Qed.

Lemma Blank_rev (s : jsstring) : Blank s -> Blank (rev s).
Proof.
  unfold Blank. rewrite !Forall_forall. intros H c Hc. apply H.
  now apply in_rev.
Qed.

Lemma trimEnd_app_Blank (s post : jsstring) :
  Blank post -> trimEnd (s ++ post) = trimEnd s.
Proof.
  intros H. unfold trimEnd. rewrite rev_app_distr.
  now rewrite trimStart_Blank_app by now apply Blank_rev.
Qed.

Lemma trim_Blank_around (pre s post : jsstring) :
  Blank pre -> Blank post -> trim (pre ++ s ++ post) = trim s.
Proof.
  intros Hpre Hpost. unfold trim. rewrite trimStart_Blank_app by assumption.
  induction s as [|c s IH]; simpl.
  - now rewrite trimStart_Blank.
  - destruct (isSpace c); [exact IH|].
    now rewrite app_comm_cons, trimEnd_app_Blank.
Qed.

(** What [trimStart] removes is white space, and what is left does not
    start with white space. *)
Lemma trimStart_split (s : jsstring) :
  exists pre, Blank pre /\ s = pre ++ trimStart s.
Proof.
  induction s as [|c s (pre & Hpre & IH)]; simpl.
  - exists []. split; [constructor | reflexivity].
  - destruct (isSpace c) eqn:E.
    + exists (c :: pre). split; [now constructor | simpl; f_equal; exact IH].
    + exists []. split; [constructor | reflexivity].
Qed.

Lemma trimStart_head (s r : jsstring) (c : ascii) :
  trimStart s = c :: r -> isSpace c = false.
Proof.
  induction s as [|x s IH]; simpl; [discriminate|].
  destruct (isSpace x) eqn:E; [exact IH|].
  intros H. injection H as <- _. exact E.
Qed.

Lemma trimEnd_split (s : jsstring) :
  exists post, Blank post /\ s = trimEnd s ++ post.
Proof.
  unfold trimEnd. destruct (trimStart_split (rev s)) as (pre & Hpre & H).
  exists (rev pre). split; [now apply Blank_rev|].
  rewrite <- rev_app_distr, <- H. now rewrite rev_involutive.
Qed.

Lemma trimEnd_last (s r : jsstring) (c : ascii) :
  trimEnd s = r ++ [c] -> isSpace c = false.
Proof.
  unfold trimEnd. intros H.
  apply (f_equal (@rev ascii)) in H.
  rewrite rev_involutive, rev_app_distr in H. simpl in H.
  exact (trimStart_head _ H).
Qed.

(** A trimmed string has no white space at either end. *)
Lemma trim_ends (s r : jsstring) (c : ascii) :
  (trim s = c :: r -> isSpace c = false)
  /\ (trim s = r ++ [c] -> isSpace c = false).
Proof.
  unfold trim. split; [|apply trimEnd_last].
  intros H. destruct (trimEnd_split (trimStart s)) as (post & _ & Hs).
  rewrite H in Hs. simpl in Hs. exact (trimStart_head _ Hs).
Qed.

End TrimFacts.

Lemma normalizeProductName_around (pre name' post : jsstring) :
  Blank pre -> Blank post ->
  normalizeProductName (pre ++ name' ++ post) = normalizeProductName name'.
Proof.
  intros Hpre Hpost. unfold normalizeProductName, JsString.toLowerCase.
  rewrite !map_app.
  now rewrite TrimFacts.trim_Blank_around by now apply TrimFacts.toLowerCase_Blank.
Qed.

Lemma normalizeCategory_around (pre category' post : jsstring) :
  Blank pre -> Blank post ->
  normalizeCategory (pre ++ category' ++ post) = normalizeCategory category'.
Proof.
  intros Hpre Hpost. unfold normalizeCategory, JsString.toLowerCase.
  rewrite !map_app.
  now rewrite TrimFacts.trim_Blank_around by now apply TrimFacts.toLowerCase_Blank.
Qed.

(** X4: white space around the name or the category of a sale, and the
    case of their letters, never change the product that is matched. *)
Theorem match_ignores_case_and_padding
    (pre post pre' post' saleName saleCategory : jsstring)
    (products : list Product) :
  Blank pre -> Blank post -> Blank pre' -> Blank post' ->
  findMatchingProduct (pre ++ saleName ++ post) (pre' ++ saleCategory ++ post')
                      products
  = findMatchingProduct saleName saleCategory products
  /\ findMatchingProduct (JsString.toLowerCase saleName)
                         (JsString.toLowerCase saleCategory) products
     = findMatchingProduct saleName saleCategory products.
Proof.
  intros H1 H2 H3 H4. unfold findMatchingProduct. split.
  - now rewrite normalizeProductName_around, normalizeCategory_around.
  - unfold normalizeProductName, normalizeCategory.
    now rewrite !TrimFacts.toLowerCase_idem.
Qed.

Lemma match_ignores_case_and_padding_witness :
  findMatchingProduct (JsString.lit "  " ++ JsString.lit "Coca" ++ JsString.lit " ")
                      ([] ++ JsString.lit "BOISSONS" ++ JsString.lit "  ")
                      Sample.catalog
  = findMatchingProduct (JsString.lit "Coca") (JsString.lit "BOISSONS")
                        Sample.catalog.
Proof.
  apply (proj1 (@match_ignores_case_and_padding
                  (JsString.lit "  ") (JsString.lit " ") [] (JsString.lit "  ")
                  (JsString.lit "Coca") (JsString.lit "BOISSONS")
                  Sample.catalog
                  ltac:(repeat constructor) ltac:(repeat constructor)
                  ltac:(repeat constructor) ltac:(repeat constructor))).
Defined.

Lemma collapseSpaces_In (s : jsstring) (inRun : bool) (c : ascii) :
  In c (JsString.collapseSpaces inRun s) ->
  c = " "%char \/ (In c s /\ JsString.isSpace c = false).
Proof.
  revert inRun. induction s as [|x s IH]; intros inRun; simpl; [tauto|].
  destruct (JsString.isSpace x) eqn:E.
  - destruct inRun; simpl.
    + intros H. apply IH in H. tauto.
    + intros [<-|H]; [now left|]. apply IH in H. tauto.
  - simpl. intros [<-|H]; [right; auto|]. apply IH in H. tauto.
Qed.

(** X5: a normalized name is made of lower-case letters, digits,
    underscores and spaces only, and has no space at either end. *)
Theorem normalized_name_shape (name' : jsstring) :
  Forall (fun c => normalChar c = true) (normalizeProductName name')
  /\ (forall c r, normalizeProductName name' = c :: r -> c <> " "%char)
  /\ (forall c r, normalizeProductName name' = r ++ [c] -> c <> " "%char).
Proof.
  split.
  - apply Forall_forall. intros c Hc. unfold normalizeProductName in Hc.
    apply NormalizeFacts.trim_In, NormalizeFacts.stripNoise_In in Hc.
    apply filter_In in Hc as [Hc Hkeep].
    apply collapseSpaces_In in Hc as [->|[Hc Hns]]; [reflexivity|].
    apply NormalizeFacts.trim_In in Hc.
    apply in_map_iff in Hc as (x & <- & _).
    unfold normalChar. rewrite Hns, orb_false_r in Hkeep.
    now rewrite Hkeep, TrimFacts.lowerChar_not_upper.
  - unfold normalizeProductName. split; intros c r H ->.
    + now apply TrimFacts.trim_ends in H.
    + now apply TrimFacts.trim_ends in H.
Qed.

(** ** Groups of sales *)

Section TotalOver.
Variable V : Type.
Variable measure : V -> Z.

Lemma totalOver_set (m : JsMap.t V) (k : jsstring) (v : V) :
  totalOver measure (JsMap.set k v m)
  = (totalOver measure m + measure v
     - match JsMap.get k m with Some old => measure old | None => 0 end)%Z.
Proof.
  induction m as [|[k' v'] m IH]; simpl; [lia|].
  destruct (JsString.eqb k k'); simpl; [lia|]. rewrite IH. lia.
Qed.
End TotalOver.

(** X6: the grouping loses and invents nothing: the quantities of the
    groups add up to the quantities of all the sales, and the sale counts of
    the groups add up to the number of sales. *)
Theorem grouping_conserves_totals (registerSales : list RegisterSale) :
  totalOver totalQuantitySold (buildSalesProductMap registerSales)
  = sumQuantity registerSales
  /\ totalOver salesCount (buildSalesProductMap registerSales)
     = Z.of_nat (length registerSales).
Proof.
  induction registerSales as [|sale sales [IHq IHc]] using rev_ind.
  - split; reflexivity.
  - rewrite buildSalesProductMap_snoc, sumQuantity_app, length_app.
    unfold addSale.
    destruct (JsMap.get (productKey sale) (buildSalesProductMap sales))
      as [existing|] eqn:E;
      rewrite !totalOver_set, E, IHq, IHc; unfold sumQuantity; simpl; lia.
Qed.

Lemma fold_foldSale_dates (rest : list RegisterSale) (existing : SalesData) :
  let entry := fold_left foldSale rest existing in
  (firstSaleDate entry <= firstSaleDate existing)%Z
  /\ (lastSaleDate existing <= lastSaleDate entry)%Z
  /\ (forall sale, In sale rest ->
        (firstSaleDate entry <= sale_date sale <= lastSaleDate entry)%Z)
  /\ (firstSaleDate entry = firstSaleDate existing
      \/ exists sale, In sale rest /\ firstSaleDate entry = sale_date sale)
  /\ (lastSaleDate entry = lastSaleDate existing
      \/ exists sale, In sale rest /\ lastSaleDate entry = sale_date sale).
Proof.
  revert existing. induction rest as [|s rest IH]; intros existing; cbv zeta.
  - simpl. split; [lia|]. split; [lia|]. split; [intros sale []|].
    split; left; reflexivity.
  - cbn [fold_left].
    destruct (IH (foldSale existing s)) as (Hf & Hl & Hall & Hfa & Hla).
    cbn [foldSale firstSaleDate lastSaleDate] in Hf, Hl, Hfa, Hla.
    destruct (Z.ltb_spec (sale_date s) (firstSaleDate existing));
      destruct (Z.ltb_spec (lastSaleDate existing) (sale_date s));
      (split; [lia|]); (split; [lia|]);
      (split; [intros sale [<-|Hin]; [lia | now apply Hall]|]);
      (split;
       [ destruct Hfa as [Hfa|(x & Hx & Hfa)];
         [ (left; exact Hfa) || (right; exists s; split; [now left | exact Hfa])
         | right; exists x; split; [now right | exact Hfa] ]
       | destruct Hla as [Hla|(x & Hx & Hla)];
         [ (left; exact Hla) || (right; exists s; split; [now left | exact Hla])
         | right; exists x; split; [now right | exact Hla] ] ]).
Qed.

(** X7: the first and the last sale date of a group are the earliest and
    the latest date among the sales of its key, and both are dates of sales
    of the group. *)
Theorem group_dates_are_extremes
    (registerSales : list RegisterSale) (key : jsstring) (salesData : SalesData) :
  In (key, salesData) (buildSalesProductMap registerSales) ->
  (forall sale, In sale registerSales -> productKey sale = key ->
     (firstSaleDate salesData <= sale_date sale <= lastSaleDate salesData)%Z)
  /\ (exists sale, In sale registerSales /\ productKey sale = key
                   /\ sale_date sale = firstSaleDate salesData)
  /\ (exists sale, In sale registerSales /\ productKey sale = key
                   /\ sale_date sale = lastSaleDate salesData).
Proof.
  intros Hin. apply entry_of_group in Hin as (first & rest & Hgroup & ->).
  assert (Hmem : forall sale, In sale (first :: rest) ->
                   In sale registerSales /\ productKey sale = key).
  { intros sale Hs. rewrite <- Hgroup in Hs. apply filter_In in Hs as [Hs Hk].
    now apply JsStringFacts.eqb_eq in Hk. }
  destruct (fold_foldSale_dates rest (firstSale first))
    as (Hf & Hl & Hall & Hfa & Hla).
  cbv zeta in *. cbn [firstSale firstSaleDate lastSaleDate] in Hf, Hl, Hfa, Hla.
  split; [|split].
  - intros sale Hs Hk.
    assert (Hg : In sale (first :: rest)).
    { rewrite <- Hgroup. apply filter_In. split; [assumption|].
      now apply JsStringFacts.eqb_eq. }
    destruct Hg as [<-|Hg]; [lia | now apply Hall].
  - destruct Hfa as [Hfa|(x & Hx & Hfa)].
    + exists first. destruct (Hmem first (or_introl eq_refl)). auto.
    + exists x. destruct (Hmem x (or_intror Hx)). auto.
  - destruct Hla as [Hla|(x & Hx & Hla)].
    + exists first. destruct (Hmem first (or_introl eq_refl)). auto.
    + exists x. destruct (Hmem x (or_intror Hx)). auto.
Qed.

Lemma group_dates_are_extremes_witness :
  (forall sale, In sale Sample.chipsSales ->
     productKey sale = JsString.lit "lays|snacks" ->
     (firstSaleDate Sample.chipsEntry <= sale_date sale
      <= lastSaleDate Sample.chipsEntry)%Z)
  /\ (exists sale, In sale Sample.chipsSales
                   /\ productKey sale = JsString.lit "lays|snacks"
                   /\ sale_date sale = firstSaleDate Sample.chipsEntry)
  /\ (exists sale, In sale Sample.chipsSales
                   /\ productKey sale = JsString.lit "lays|snacks"
                   /\ sale_date sale = lastSaleDate Sample.chipsEntry).
Proof.
  apply (@group_dates_are_extremes Sample.chipsSales
           (JsString.lit "lays|snacks") Sample.chipsEntry).
  vm_compute. left. reflexivity.
Defined.

(** ** What the sync creates *)

Lemma entry_key (registerSales : list RegisterSale)
    (key : jsstring) (salesData : SalesData) :
  In (key, salesData) (buildSalesProductMap registerSales) ->
  key = JsString.toLowerCase (sd_name salesData)
        ++ JsString.lit "|"
        ++ JsString.toLowerCase (sd_category salesData).
Proof.
  intros Hin. apply entry_of_group in Hin as (first & rest & Hgroup & ->).
  destruct (fold_foldSale rest (firstSale first)) as (_ & _ & _ & Hn & Hc).
  cbv zeta in *. rewrite Hn, Hc. cbn [firstSale sd_name sd_category].
  assert (Hf : In first (salesOfKey key registerSales))
    by (rewrite Hgroup; now left).
  apply filter_In in Hf as [_ Hk]. apply JsStringFacts.eqb_eq in Hk.
  now rewrite <- Hk.
Qed.

Lemma synthesizeFrom_In (env : SyncEnv) (l : list (jsstring * SalesData))
    (n : nat) (product : Product) :
  In product (synthesizeFrom env n l) ->
  exists i entry, In entry l /\ product = synthesize env i (snd entry).
Proof.
  revert n. induction l as [|x l IH]; intros n; simpl; [tauto|].
  intros [<-|H].
  - exists n, x. auto.
  - apply IH in H as (i & entry & Hin & ->). exists i, entry. auto.
Qed.

Lemma synthesizeFrom_keys (env : SyncEnv) (registerSales : list RegisterSale)
    (l : list (jsstring * SalesData)) (n : nat) :
  (forall entry, In entry l -> In entry (buildSalesProductMap registerSales)) ->
  map catalogKey (synthesizeFrom env n l) = map fst l.
Proof.
  revert n. induction l as [|[k d] l IH]; intros n Hsub; simpl; [reflexivity|].
  rewrite IH by (intros e He; apply Hsub; now right). f_equal.
  unfold catalogKey. cbn [synthesize name category snd].
  symmetry. apply entry_key with (registerSales := registerSales).
  apply Hsub. now left.
Qed.

Lemma NoDup_map_filter (A B : Type) (f : A -> B) (g : A -> bool) (l : list A) :
  NoDup (map f l) -> NoDup (map f (filter g l)).
Proof.
  induction l as [|x l IH]; simpl; intros Hnd; [constructor|].
  inversion Hnd as [|? ? Hnotin Hrest]; subst.
  destruct (g x); simpl; [|auto]. constructor; [|auto].
  intros Hin. apply Hnotin. apply in_map_iff in Hin as (y & Hy & Hin).
  apply filter_In in Hin as [Hin _]. rewrite <- Hy. now apply in_map.
Qed.

(** X8: a sync that returns creates at most one product per group of
    sales: the created products have pairwise different keys (lower-cased
    name and category), none of them was matched by the catalog, and they
    are no more than the groups. *)
Theorem sync_creates_distinct_unmatched
    (env : SyncEnv) (registerSales : list RegisterSale)
    (products store created store' : list Product) (summary : SyncSummary) :
  autoSyncProductsFromSales env registerSales products store
  = (Returned created summary, store') ->
  NoDup (map catalogKey created)
  /\ (forall p, In p created ->
        findMatchingProduct (name p) (category p) products = None)
  /\ length created <= JsMap.size (buildSalesProductMap registerSales).
Proof.
  intros Hsync. apply autoSync_returned in Hsync as [-> _].
  assert (Hsub : forall entry,
             In entry (missingProducts registerSales products) ->
             In entry (buildSalesProductMap registerSales)).
  { intros entry He. now apply filter_In in He as [He _]. }
  split; [|split].
  - rewrite (synthesizeFrom_keys env registerSales _ 0 Hsub).
    apply NoDup_map_filter, buildSalesProductMap_NoDup.
  - intros p Hp. apply synthesizeFrom_In in Hp as (i & entry & He & ->).
    apply filter_In in He as [_ He]. cbn [synthesize name category].
    now destruct (findMatchingProduct _ _ products).
  - assert (Hlen : forall l n, length (synthesizeFrom env n l) = length l).
    { induction l as [|x l IH]; intros n; simpl; [reflexivity|].
      now rewrite IH. }
    rewrite Hlen. apply filter_length_le.
Qed.

Lemma sync_creates_distinct_unmatched_witness :
  let env := Sample.env (fun _ => true) in
  let created :=
    synthesizeFrom env 0 (missingProducts Sample.chipsSales Sample.catalog) in
  NoDup (map catalogKey created)
  /\ (forall p, In p created ->
        findMatchingProduct (name p) (category p) Sample.catalog = None)
  /\ length created <= JsMap.size (buildSalesProductMap Sample.chipsSales).
Proof.
  cbv zeta.
  apply (@sync_creates_distinct_unmatched
           (Sample.env (fun _ => true)) Sample.chipsSales Sample.catalog []
           (synthesizeFrom (Sample.env (fun _ => true)) 0
              (missingProducts Sample.chipsSales Sample.catalog))
           (synthesizeFrom (Sample.env (fun _ => true)) 0
              (missingProducts Sample.chipsSales Sample.catalog))
           (generateSyncSummary
              (synthesizeFrom (Sample.env (fun _ => true)) 0
                 (missingProducts Sample.chipsSales Sample.catalog))
              2)).
  vm_compute. reflexivity.
Defined.

(** X9: a second sync finds nothing to do.  After a sync that returned,
    with a catalog that holds the old products and the created ones (in any
    order), every group is matched: nothing is missing, nothing is written
    and the result is an empty list. *)
Theorem sync_twice_creates_nothing
    (env env' : SyncEnv) (registerSales : list RegisterSale)
    (products products' store created store' : list Product)
    (summary : SyncSummary) :
  autoSyncProductsFromSales env registerSales products store
  = (Returned created summary, store') ->
  (forall p, In p products \/ In p created -> In p products') ->
  missingProducts registerSales products' = []
  /\ exists summary',
       autoSyncProductsFromSales env' registerSales products' store'
       = (Returned [] summary', store').
Proof.
  intros Hsync Hincl. apply autoSync_returned in Hsync as [Hcreated _].
  assert (Hnone : missingProducts registerSales products' = []).
  { apply missingProducts_matched. intros [k d] Hin. cbn [snd].
    destruct (findMatchingProduct (sd_name d) (sd_category d) products)
      as [m|] eqn:E.
    - apply match_found_in_superset with (products := products);
        [intros p Hp; apply Hincl; now left | congruence].
    - assert (Hmiss : In (k, d) (missingProducts registerSales products)).
      { apply filter_In. split; [assumption|]. cbn [snd]. now rewrite E. }
      apply In_nth_error in Hmiss as [i Hi].
      pose proof (synthesizeFrom_nth env _ 0 _ Hi) as Hp.
      rewrite <- Hcreated in Hp. apply nth_error_In in Hp. cbn [snd] in Hp.
      apply findMatchingProduct_found with (p := synthesize env (0 + i) d).
      + apply Hincl. now right.
      + left. unfold exactMatch. cbn [synthesize name category].
        now rewrite !JsStringFacts.eqb_refl. }
  split; [exact Hnone|].
  unfold autoSyncProductsFromSales. rewrite Hnone.
  destruct registerSales; eauto.
Qed.

Lemma sync_twice_creates_nothing_witness :
  let env := Sample.env (fun _ => true) in
  let created :=
    synthesizeFrom env 0 (missingProducts Sample.chipsSales Sample.catalog) in
  missingProducts Sample.chipsSales (created ++ Sample.catalog) = []
  /\ exists summary',
       autoSyncProductsFromSales (Sample.env (fun _ => false))
         Sample.chipsSales (created ++ Sample.catalog) created
       = (Returned [] summary', created).
Proof.
  cbv zeta.
  apply (@sync_twice_creates_nothing
           (Sample.env (fun _ => true)) (Sample.env (fun _ => false))
           Sample.chipsSales Sample.catalog
           (synthesizeFrom (Sample.env (fun _ => true)) 0
              (missingProducts Sample.chipsSales Sample.catalog)
            ++ Sample.catalog)
           []
           (synthesizeFrom (Sample.env (fun _ => true)) 0
              (missingProducts Sample.chipsSales Sample.catalog))
           (synthesizeFrom (Sample.env (fun _ => true)) 0
              (missingProducts Sample.chipsSales Sample.catalog))
           (generateSyncSummary
              (synthesizeFrom (Sample.env (fun _ => true)) 0
                 (missingProducts Sample.chipsSales Sample.catalog))
              2)).
  - vm_compute. reflexivity.
  - intros p [Hp|Hp]; apply in_or_app; [now right | now left].
Defined.

(** ** The sync report *)

Lemma breakdown_snoc (created : list Product) (p : Product) (n : nat) :
  reportBreakdown (generateSyncSummary (created ++ [p]) n)
  = countKey (category p) (reportBreakdown (generateSyncSummary created n)).
Proof. unfold generateSyncSummary, reportBreakdown. now rewrite fold_left_app. Qed.

(** The counter reads and writes the property of its key only. *)
Lemma get_countKey (key key' : jsstring) (acc : JsMap.t CategoryCount) :
  JsMap.get key' (countKey key acc)
  = if JsString.eqb key key'
    then match JsMap.get key acc with
         | Some (Counted n) => Some (Counted (n + 1))
         | Some (NotCounted ones) => Some (NotCounted (ones + 1))
         | None =>
             if JsString.eqb key (JsString.lit "__proto__") then None
             else if inheritedName key then Some (NotCounted 1)
             else Some (Counted 1)
         end
    else JsMap.get key' acc.
Proof.
  unfold countKey. destruct (JsString.eqb key key') eqn:E.
  - apply JsStringFacts.eqb_eq in E. subst key'.
    destruct (JsMap.get key acc) as [[n|ones]|] eqn:G;
      [now rewrite JsMapFacts.get_set_eq..|].
    destruct (JsString.eqb key (JsString.lit "__proto__")); [exact G|].
    destruct (inheritedName key); now rewrite JsMapFacts.get_set_eq.
  - apply JsStringFacts.eqb_neq in E.
    destruct (JsMap.get key acc) as [[n|ones]|] eqn:G;
      [now rewrite JsMapFacts.get_set_neq..|].
    destruct (JsString.eqb key (JsString.lit "__proto__")); [reflexivity|].
    destruct (inheritedName key); now rewrite JsMapFacts.get_set_neq.
Qed.

(** X10: the category lines of the report of a sync.  A category that no
    created product has gets no line.  A category that is not a property
    name inherited by a plain object gets a line with the number of created
    products of that category.  The category [__proto__] never gets a line,
    and another inherited name gets a line with a text in place of a number.
    The numbers of all the lines add up to the number of created products
    whose category is not an inherited name. *)
Theorem report_breakdown_counts (created : list Product) (total : nat) :
  let breakdown := reportBreakdown (generateSyncSummary created total) in
  (forall category',
     JsMap.get category' breakdown
     = match length (ofCategory category' created) with
       | O => None
       | S k =>
           if JsString.eqb category' (JsString.lit "__proto__") then None
           else if inheritedName category' then Some (NotCounted (S k))
           else Some (Counted (S k))
       end)
  /\ totalOver countedProducts breakdown = Z.of_nat (length (countable created)).
Proof.
  cbv zeta. induction created as [|p created [IHget IHsum]] using rev_ind.
  - split; reflexivity.
  - rewrite breakdown_snoc. split.
    + intros category'. rewrite get_countKey.
      unfold ofCategory in *. rewrite filter_app, length_app.
      cbn [filter]. rewrite IHget.
      destruct (JsString.eqb (category p) category') eqn:E.
      * apply JsStringFacts.eqb_eq in E. subst category'.
        cbn [length].
        destruct (length (filter _ created)) as [|k]; cbn [Nat.add].
        -- reflexivity.
        -- destruct (JsString.eqb (category p) (JsString.lit "__proto__"));
             [reflexivity|].
           destruct (inheritedName (category p));
             repeat f_equal; lia.
      * cbn [length]. now rewrite Nat.add_0_r.
    + unfold countable in *. rewrite filter_app, length_app. cbn [filter].
      unfold countKey. rewrite (IHget (category p)).
      destruct (JsString.eqb (category p) (JsString.lit "__proto__")) eqn:P.
      * apply JsStringFacts.eqb_eq in P. rewrite P.
        change (inheritedName (JsString.lit "__proto__")) with true.
        cbn [negb length].
        destruct (length (ofCategory _ created)); rewrite IHsum; lia.
      * destruct (inheritedName (category p)) eqn:I; cbn [negb length];
          destruct (length (ofCategory (category p) created)) as [|k] eqn:L;
          rewrite totalOver_set, IHget, IHsum, L, ?P, ?I;
          cbn [countedProducts]; lia.
Qed.

(** ** Batches *)

Section SplitFrom.
Variable A : Type.
Variable size : nat.
Hypothesis size_pos : 0 < size.
Variable items : list A.

Lemma splitFrom_concat (fuel i : nat) :
  length items <= i + fuel * size ->
  concat (splitFrom size fuel i items) = skipn i items.
Proof.
  revert i. induction fuel as [|fuel IH]; intros i Hfuel; simpl.
  - now rewrite skipn_all2 by lia.
  - destruct (i <? length items) eqn:Hi.
    + simpl. rewrite IH by lia.
      rewrite (Nat.add_comm i size), <- skipn_skipn. apply firstn_skipn.
    + apply Nat.ltb_ge in Hi. now rewrite skipn_all2.
Qed.

Lemma splitFrom_lengths (fuel i : nat) :
  length items <= i + fuel * size ->
  map (@length A) (splitFrom size fuel i items)
  = repeat size ((length items - i) / size)
    ++ (if (length items - i) mod size =? 0 then []
        else [(length items - i) mod size]).
Proof.
  revert i. induction fuel as [|fuel IH]; intros i Hfuel; simpl.
  - replace (length items - i) with 0 by lia.
    rewrite Nat.Div0.div_0_l, Nat.Div0.mod_0_l. reflexivity.
  - destruct (i <? length items) eqn:Hi.
    + apply Nat.ltb_lt in Hi. simpl. rewrite IH by lia.
      rewrite length_firstn, length_skipn.
      destruct (Nat.le_gt_cases size (length items - i)) as [Hle|Hgt].
      * assert (Hd : (length items - i) / size
                     = S ((length items - (i + size)) / size)).
        { replace (length items - i)
            with ((length items - (i + size)) + 1 * size) by lia.
          rewrite Nat.div_add by lia. lia. }
        assert (Hm : (length items - i) mod size
                     = (length items - (i + size)) mod size).
        { replace (length items - i)
            with ((length items - (i + size)) + 1 * size) by lia.
          now rewrite Nat.Div0.mod_add. }
        rewrite Hd, Hm, Nat.min_l by lia. reflexivity.
      * replace (length items - (i + size)) with 0 by lia.
        rewrite Nat.Div0.div_0_l, Nat.Div0.mod_0_l.
        rewrite Nat.div_small, Nat.mod_small, Nat.min_r by lia.
        simpl. destruct (length items - i =? 0) eqn:E; [|reflexivity].
        apply Nat.eqb_eq in E. lia.
    + apply Nat.ltb_ge in Hi. replace (length items - i) with 0 by lia.
      rewrite Nat.Div0.div_0_l, Nat.Div0.mod_0_l. reflexivity.
Qed.
End SplitFrom.

Lemma splitBatches_concat (A : Type) (items : list A) :
  concat (splitBatches items) = items
  /\ (items <> [] -> splitBatches items <> []).
Proof.
  assert (Hc : concat (splitBatches items) = items).
  { unfold splitBatches.
    rewrite splitFrom_concat; [reflexivity | | ]; unfold BATCH_SIZE; lia. }
  split; [exact Hc|]. intros Hne Hnil. rewrite Hnil in Hc. simpl in Hc.
  congruence.
Qed.

(** X11: the batches of a batched write, put end to end, are the items in
    order; all batches hold 200 items except a last, smaller one when the
    number of items is not a multiple of 200; so there are
    ceil(n / 200) batches and none is empty. *)
Theorem splitBatches_partition (A : Type) (items : list A) :
  concat (splitBatches items) = items
  /\ map (@length A) (splitBatches items)
     = repeat 200 (length items / 200)
       ++ (if length items mod 200 =? 0 then [] else [length items mod 200])
  /\ length (splitBatches items) = (length items + 199) / 200
  /\ Forall (fun batch => 1 <= length batch <= 200) (splitBatches items).
Proof.
  assert (Hpos : 0 < BATCH_SIZE) by (unfold BATCH_SIZE; lia).
  assert (Hfuel : length items <= 0 + length items * BATCH_SIZE)
    by (unfold BATCH_SIZE; lia).
  pose proof (splitFrom_concat Hpos items _ _ Hfuel) as Hc.
  pose proof (splitFrom_lengths Hpos items _ _ Hfuel) as Hl.
  rewrite Nat.sub_0_r in Hl. fold (splitBatches items) in Hc, Hl.
  change BATCH_SIZE with 200 in Hl.
  pose proof (Nat.div_mod_eq (length items) 200) as Hdm.
  pose proof (Nat.mod_upper_bound (length items) 200 ltac:(lia)) as Hm.
  split; [exact Hc|]. split; [exact Hl|]. split.
  - rewrite <- (length_map (@length A)), Hl, length_app, repeat_length.
    destruct (length items mod 200 =? 0) eqn:E.
    + apply Nat.eqb_eq in E. cbn [length]. rewrite Nat.add_0_r.
      apply Nat.div_unique with (r := 199); lia.
    + apply Nat.eqb_neq in E. cbn [length].
      apply Nat.div_unique with (r := length items mod 200 - 1); lia.
  - apply Forall_forall. intros batch Hb.
    apply (in_map (@length A)) in Hb. rewrite Hl in Hb.
    apply in_app_or in Hb as [Hb|Hb].
    + apply repeat_spec in Hb. lia.
    + destruct (length items mod 200 =? 0) eqn:E; [destruct Hb|].
      apply Nat.eqb_neq in E. destruct Hb as [Hb|[]]. lia.
Qed.

(** ** Deleting products *)

Lemma includesId_In (ids : list jsstring) (id' : jsstring) :
  includesId ids id' = true <-> In id' ids.
Proof.
  unfold includesId. rewrite existsb_exists. split.
  - intros (x & Hx & E). apply JsStringFacts.eqb_eq in E. now subst.
  - intros H. exists id'. split; [assumption | apply JsStringFacts.eqb_refl].
Qed.

Lemma withoutProducts_app (a b : list jsstring) (products : list Product) :
  withoutProducts (a ++ b) products
  = withoutProducts b (withoutProducts a products).
Proof.
  unfold withoutProducts, includesId.
  induction products as [|p products IH]; simpl; [reflexivity|].
  rewrite existsb_app.
  destruct (existsb (JsString.eqb (id p)) a); simpl; [exact IH|].
  destruct (existsb (JsString.eqb (id p)) b); simpl; now rewrite IH.
Qed.

Lemma withoutProducts_nil (products : list Product) :
  withoutProducts [] products = products.
Proof.
  unfold withoutProducts, includesId.
  induction products as [|p products IH]; simpl in *; [reflexivity|].
  now rewrite IH.
Qed.

Lemma commitDeletes_ok (commitOk : nat -> bool) (batches : list (list jsstring))
    (k : nat) (store : list Product) :
  (forall j, j < length batches -> commitOk (k + j) = true) ->
  commitDeletes commitOk k batches store
  = (true, withoutProducts (concat batches) store).
Proof.
  revert k store. induction batches as [|batch rest IH]; intros k store Hok.
  - simpl. now rewrite withoutProducts_nil.
  - cbn [commitDeletes concat].
    pose proof (Hok 0 ltac:(simpl; lia)) as H0. rewrite Nat.add_0_r in H0.
    rewrite H0, IH, withoutProducts_app; [reflexivity|].
    intros j Hj. rewrite Nat.add_succ_comm. apply Hok. simpl. lia.
Qed.

Lemma commitDeletes_fail (commitOk : nat -> bool) (batches : list (list jsstring))
    (b k : nat) (store : list Product) :
  b < length batches ->
  (forall j, j < b -> commitOk (k + j) = true) ->
  commitOk (k + b) = false ->
  commitDeletes commitOk k batches store
  = (false, withoutProducts (concat (firstn b batches)) store).
Proof.
  revert b k store.
  induction batches as [|batch rest IH]; intros b k store Hb Hok Hfail;
    [simpl in Hb; lia|].
  destruct b as [|b]; cbn [commitDeletes firstn concat].
  - rewrite Nat.add_0_r in Hfail. rewrite Hfail.
    now rewrite withoutProducts_nil.
  - pose proof (Hok 0 ltac:(lia)) as H0. rewrite Nat.add_0_r in H0.
    rewrite H0, (IH b), withoutProducts_app; [reflexivity | simpl in Hb; lia | |].
    + intros j Hj. rewrite Nat.add_succ_comm. apply Hok. lia.
    + now rewrite Nat.add_succ_comm.
Qed.

(** X12: [deleteProducts] always drops the listed ids from the local
    product list, whether the store accepted the deletion or not.  It
    returns true and the store has dropped them too when every batch
    commits; when batch [b] is the first to fail it returns false and the
    store has dropped only the ids of the batches before [b], so the local
    list and the store differ on the later ones. *)
Theorem deleteProducts_outcome (commitOk : nat -> bool)
    (productIds : list jsstring) (products store : list Product) :
  let outcome := deleteProducts commitOk productIds products store in
  let batches := splitBatches productIds in
  (forall p, In p (snd (fst outcome))
             <-> In p products /\ ~ In (id p) productIds)
  /\ ((forall b, b < length batches -> commitOk b = true) ->
      fst (fst outcome) = true
      /\ snd outcome = withoutProducts productIds store)
  /\ (forall b, b < length batches ->
        (forall b', b' < b -> commitOk b' = true) ->
        commitOk b = false ->
        fst (fst outcome) = false
        /\ snd outcome = withoutProducts (concat (firstn b batches)) store).
Proof.
  cbv zeta. unfold deleteProducts. split; [|split].
  - intros p.
    destruct (commitDeletes commitOk 0 (splitBatches productIds) store)
      as [[] store']; cbn [fst snd]; unfold withoutProducts;
      rewrite filter_In, negb_true_iff, <- includesId_In;
      destruct (includesId productIds (id p)); intuition congruence.
  - intros Hok. rewrite commitDeletes_ok by exact Hok. cbn [fst snd].
    split; [reflexivity|].
    now rewrite (proj1 (splitBatches_concat productIds)).
  - intros b Hb Hok Hfail.
    rewrite (@commitDeletes_fail commitOk _ b 0) by assumption.
    cbn [fst snd]. split; reflexivity.
Qed.

Lemma deleteProducts_outcome_witness :
  let products := [Sample.product "p0" "Fanta" "snacks" 5 1;
                   Sample.product "p1" "COCA COLA" "boissons" 50 10] in
  let outcome := deleteProducts (fun _ => false) [JsString.lit "p1"]
                                products products in
  fst (fst outcome) = false
  /\ snd outcome
     = withoutProducts (concat (firstn 0 (splitBatches [JsString.lit "p1"])))
                       products.
Proof.
  cbv zeta.
  apply (proj2 (proj2 (deleteProducts_outcome
                         (fun _ => false) [JsString.lit "p1"]
                         [Sample.product "p0" "Fanta" "snacks" 5 1;
                          Sample.product "p1" "COCA COLA" "boissons" 50 10]
                         [Sample.product "p0" "Fanta" "snacks" 5 1;
                          Sample.product "p1" "COCA COLA" "boissons" 50 10]))
               0).
  - vm_compute. lia.
  - intros b' Hb'. lia.
  - reflexivity.
Defined.

Lemma deleteProduct_withoutProducts (id' : jsstring) (products : list Product) :
  deleteProduct id' products = withoutProducts [id'] products.
Proof.
  unfold deleteProduct, withoutProducts, includesId. apply filter_ext.
  intros p. simpl. now rewrite orb_false_r.
Qed.

(** X13: deleting a list of products at once leaves the same local list as
    deleting them one at a time with [deleteProduct], and deleting the same
    ids again changes nothing. *)
Theorem deleteProducts_one_by_one (productIds : list jsstring)
    (products : list Product) :
  fold_left (fun remaining id' => deleteProduct id' remaining) productIds products
  = withoutProducts productIds products
  /\ withoutProducts productIds (withoutProducts productIds products)
     = withoutProducts productIds products.
Proof.
  split.
  - revert products.
    induction productIds as [|id' ids IH]; intros products; simpl.
    + now rewrite withoutProducts_nil.
    + rewrite IH, deleteProduct_withoutProducts.
      now rewrite <- withoutProducts_app.
  - unfold withoutProducts.
    induction products as [|p products IH]; simpl; [reflexivity|].
    destruct (includesId productIds (id p)) eqn:E; simpl; [exact IH|].
    now rewrite E, IH.
Qed.

(** ** Alerts *)

Lemma stockAlerts_counts (now : Z) (products : list Product) :
  (forall p, In p products -> (0 <= minStock p)%Z) ->
  let stockAlerts :=
    flat_map (fun product =>
                if (stock product <=? minStock product)%Z
                then [lowStockAlert now product] else [])
             products in
  length (filter isLowStockAlert stockAlerts)
  = length (filter (fun p => (stock p =? 0)%Z) products)
    + length (filter (fun p => (0 <? stock p)%Z && (stock p <=? minStock p)%Z)
                     products)
    + length (filter (fun p => (stock p <? 0)%Z) products)
  /\ length (filter isErrorAlert stockAlerts)
     = length (filter (fun p => (stock p =? 0)%Z) products).
Proof.
  cbv zeta. induction products as [|p products IH]; intros Hmin.
  - split; reflexivity.
  - destruct IH as [IHl IHe]; [intros q Hq; apply Hmin; now right|].
    pose proof (Hmin p (or_introl eq_refl)) as Hp.
    cbn [flat_map filter]. rewrite !filter_app, !length_app, IHl, IHe.
    destruct (Z.leb_spec (stock p) (minStock p));
      destruct (Z.eqb_spec (stock p) 0) as [E0|E0];
      destruct (Z.ltb_spec 0 (stock p));
      destruct (Z.ltb_spec (stock p) 0);
      try lia; unfold lowStockAlert, isLowStockAlert, isErrorAlert;
      cbn [filter alert_type alert_severity length andb app];
      try (apply Z.eqb_eq in E0 as E0'; rewrite E0');
      try (apply Z.eqb_neq in E0 as E0'; rewrite E0');
      cbn [length]; split; lia.
Qed.

(** X14: when no product has a negative minimum, [generateAlerts] raises
    one low-stock alert per product that is out of stock, low on stock or
    below zero -- the two counters of the statistics plus the products with a
    negative stock --, the alerts of severity error are as many as the
    out-of-stock counter, and there is one high-sales alert exactly when more
    than 50 sales fall on the current day. *)
Theorem alerts_match_statistics (now : Z) (isToday : Z -> bool)
    (products : list Product) (registerSales : list RegisterSale) :
  (forall p, In p products -> (0 <= minStock p)%Z) ->
  let alerts := generateAlerts now isToday products registerSales in
  let stats := StockModule.stockStats products in
  let today := length (filter (fun sale => isToday (sale_date sale))
                              registerSales) in
  length (filter isLowStockAlert alerts)
  = StockModule.outOfStock stats + StockModule.lowStock stats
    + length (filter (fun p => (stock p <? 0)%Z) products)
  /\ length (filter isErrorAlert alerts) = StockModule.outOfStock stats
  /\ length (filter (fun a => negb (isLowStockAlert a)) alerts)
     = (if 50 <? today then 1 else 0)
  /\ length alerts <= length products + 1.
Proof.
  intros Hmin. cbv zeta.
  destruct (stockAlerts_counts now products Hmin) as [Hl He]. cbv zeta in Hl, He.
  assert (Hnot : forall l,
            filter (fun a => negb (isLowStockAlert a))
                   (flat_map (fun product =>
                                if (stock product <=? minStock product)%Z
                                then [lowStockAlert now product] else []) l)
            = []).
  { induction l as [|p l IH]; [reflexivity|]. cbn [flat_map].
    rewrite filter_app, IH, app_nil_r.
    now destruct (stock p <=? minStock p)%Z. }
  assert (Hlen : forall l,
            length (flat_map (fun product =>
                                if (stock product <=? minStock product)%Z
                                then [lowStockAlert now product] else []) l)
            <= length l).
  { induction l as [|p l IH]; [reflexivity|]. cbn [flat_map].
    rewrite length_app. destruct (stock p <=? minStock p)%Z; simpl; lia. }
  unfold generateAlerts, StockModule.stockStats.
  cbn [StockModule.outOfStock StockModule.lowStock].
  destruct (50 <? length (filter _ registerSales)).
  - rewrite !filter_app, !length_app, Hl, He, Hnot. cbn.
    specialize (Hlen products). repeat split; lia.
  - rewrite Hl, He, Hnot. specialize (Hlen products). repeat split; lia.
Qed.

Lemma alerts_match_statistics_witness :
  let products := [Sample.product "p0" "Fanta" "snacks" 0 1;
                   Sample.product "p1" "COCA COLA" "boissons" (-3) 10;
                   Sample.product "p2" "Orangina" "boissons" 20 5] in
  let alerts := generateAlerts 0 (fun _ => true) products Sample.chipsSales in
  length (filter isLowStockAlert alerts) = 1 + 0 + 1
  /\ length (filter isErrorAlert alerts) = 1.
Proof.
  cbv zeta.
  destruct (alerts_match_statistics 0 (fun _ => true)
              [Sample.product "p0" "Fanta" "snacks" 0 1;
               Sample.product "p1" "COCA COLA" "boissons" (-3) 10;
               Sample.product "p2" "Orangina" "boissons" 20 5]
              Sample.chipsSales)
    as (Hl & He & _).
  - intros p [<-|[<-|[<-|[]]]]; simpl; lia.
  - split; [exact Hl | exact He].
Defined.

(** ** Filters of the stock table *)

(** X15: in the stock table, for a product with a non-negative minimum,
    a final stock that is not negative falls in exactly one of the stock
    levels high, normal, low and empty, and a negative final stock falls in
    none: such a product is hidden by every stock-level filter but [all]. *)
Theorem stock_levels_partition (finalStock' : Z) (product : Product) :
  (0 <= minStock product)%Z ->
  length (filter (fun level =>
                    StockTable.matchesStockLevel level finalStock' product)
                 [JsString.lit "high"; JsString.lit "normal";
                  JsString.lit "low"; JsString.lit "empty"])
  = (if (0 <=? finalStock')%Z then 1 else 0)
  /\ StockTable.matchesStockLevel (JsString.lit "all") finalStock' product
     = true.
Proof.
  intros Hmin. split; [|reflexivity].
  unfold StockTable.matchesStockLevel. cbn [filter JsString.lit
    list_ascii_of_string JsString.eqb Ascii.eqb Bool.eqb andb orb].
  destruct (Z.ltb_spec (minStock product * 2) finalStock');
    destruct (Z.ltb_spec (minStock product) finalStock');
    destruct (Z.leb_spec finalStock' (minStock product * 2));
    destruct (Z.ltb_spec 0 finalStock');
    destruct (Z.leb_spec finalStock' (minStock product));
    destruct (Z.eqb_spec finalStock' 0);
    destruct (Z.leb_spec 0 finalStock');
    try lia; reflexivity.
Qed.

Lemma stock_levels_partition_witness :
  let product := Sample.product "p1" "COCA COLA" "boissons" 50 10 in
  length (filter (fun level => StockTable.matchesStockLevel level (-3) product)
                 [JsString.lit "high"; JsString.lit "normal";
                  JsString.lit "low"; JsString.lit "empty"])
  = 0.
Proof.
  apply (proj1 (stock_levels_partition (-3)
                  (Sample.product "p1" "COCA COLA" "boissons" 50 10)
                  ltac:(simpl; lia))).
Defined.

(** X16: in [StockModule.tsx], for a product with a non-negative minimum,
    a stock that is not negative falls in exactly one of the levels
    critical, low, normal and high, and in exactly one of the statuses
    out-of-stock, low-stock and in-stock; a negative stock falls in none. *)
Theorem stored_stock_levels_partition (product : Product) :
  (0 <= minStock product)%Z ->
  length (filter (fun level => StockModuleFilter.matchesStockLevel level product)
                 [JsString.lit "critical"; JsString.lit "low";
                  JsString.lit "normal"; JsString.lit "high"])
  = (if (0 <=? stock product)%Z then 1 else 0)
  /\ length (filter (fun status => StockModuleFilter.matchesStatus status product)
                    [JsString.lit "out-of-stock"; JsString.lit "low-stock";
                     JsString.lit "in-stock"])
     = (if (0 <=? stock product)%Z then 1 else 0).
Proof.
  intros Hmin.
  unfold StockModuleFilter.matchesStockLevel, StockModuleFilter.matchesStatus.
  cbn [filter JsString.lit list_ascii_of_string JsString.eqb Ascii.eqb
       Bool.eqb andb orb].
  destruct (Z.eqb_spec (stock product) 0);
    destruct (Z.ltb_spec 0 (stock product));
    destruct (Z.leb_spec (stock product) (minStock product));
    destruct (Z.ltb_spec (minStock product) (stock product));
    destruct (Z.leb_spec (stock product) (minStock product * 3));
    destruct (Z.ltb_spec (minStock product * 3) (stock product));
    destruct (Z.leb_spec 0 (stock product));
    try lia; split; reflexivity.
Qed.

Lemma stored_stock_levels_partition_witness :
  let product := Sample.product "p1" "COCA COLA" "boissons" 25 10 in
  length (filter (fun level => StockModuleFilter.matchesStockLevel level product)
                 [JsString.lit "critical"; JsString.lit "low";
                  JsString.lit "normal"; JsString.lit "high"])
  = 1.
Proof.
  apply (proj1 (stored_stock_levels_partition
                  (Sample.product "p1" "COCA COLA" "boissons" 25 10)
                  ltac:(simpl; lia))).
Defined.

Lemma includes_empty (s : jsstring) : JsString.includes s [] = true.
Proof. destruct s; reflexivity. Qed.

(** X17: the counters of [StockModule.tsx] agree with its filters: with
    no search term and no other filter, the low-stock status filter shows as
    many products as the low-stock counter says, and the out-of-stock filter
    as many as the out-of-stock counter. *)
Theorem stored_counters_match_filters (products : list Product) :
  let stats := StockModule.stockStats products in
  let shown status :=
    filter (StockModuleFilter.matchesFilters
              [] (JsString.lit "all") (JsString.lit status) (JsString.lit "all"))
           products in
  StockModule.lowStock stats = length (shown "low-stock"%string)
  /\ StockModule.outOfStock stats = length (shown "out-of-stock"%string).
Proof.
  cbv zeta. unfold StockModule.stockStats.
  cbn [StockModule.lowStock StockModule.outOfStock].
  split; apply AggregateFacts.filter_length_ext; intros p _;
    unfold StockModuleFilter.matchesFilters, StockModuleFilter.matchesSearch,
      StockTable.matchesCategory, StockModuleFilter.matchesStatus,
      StockModuleFilter.matchesStockLevel;
    cbn [JsString.toLowerCase map]; rewrite !includes_empty;
    cbn [JsString.lit list_ascii_of_string JsString.eqb Ascii.eqb Bool.eqb
         andb orb];
    now rewrite ?andb_true_r.
Qed.

Lemma filter_length_split (A : Type) (f g h : A -> bool) (l : list A) :
  (forall x, In x l -> f x = (g x || h x) /\ g x && h x = false) ->
  length (filter f l) = length (filter g l) + length (filter h l).
Proof.
  induction l as [|x l IH]; intros H; [reflexivity|].
  destruct (H x (or_introl eq_refl)) as [Hf Hgh]. cbn [filter].
  rewrite Hf. specialize (IH (fun y Hy => H y (or_intror Hy))).
  destruct (g x), (h x); try discriminate; cbn [orb length]; lia.
Qed.

(** X18: the low-stock counter of the stock table and its low-stock filter
    disagree on the products with a negative final stock: the counter is the
    number of products the filter shows plus the number of products whose
    final stock is negative and at most their minimum. *)
Theorem table_counter_exceeds_filter (products : list Product)
    (cache : JsMap.t StockCalculation) :
  let shown :=
    filter (StockTable.matchesFilters cache [] (JsString.lit "all")
              (JsString.lit "low-stock") (JsString.lit "all"))
           products in
  let negative :=
    filter (fun p => (StockView.finalStockOf cache p <? 0)%Z
                     && (StockView.finalStockOf cache p <=? minStock p)%Z)
           products in
  StockView.lowStock (StockView.stockStats products cache)
  = length shown + length negative.
Proof.
  cbv zeta. rewrite StockViewFacts.stockStats_lowStock.
  apply filter_length_split. intros p _.
  unfold StockView.countedLow, StockTable.matchesFilters,
    StockTable.matchesSearch, StockTable.matchesCategory,
    StockTable.matchesStatus, StockTable.matchesStockLevel.
  cbn [JsString.toLowerCase map]. rewrite !includes_empty.
  cbn [JsString.lit list_ascii_of_string JsString.eqb Ascii.eqb Bool.eqb
       andb orb].
  destruct (Z.eqb_spec (StockView.finalStockOf cache p) 0);
    destruct (Z.leb_spec (StockView.finalStockOf cache p) (minStock p));
    destruct (Z.ltb_spec 0 (StockView.finalStockOf cache p));
    destruct (Z.ltb_spec (StockView.finalStockOf cache p) 0);
    try lia; split; reflexivity.
Qed.

(** ** Pages of the stock table *)

Lemma totalPages_bounds (A : Type) (rows : list A) :
  let t := StockTable.totalPages rows in
  (0 <= t)%Z
  /\ (Z.of_nat (length rows) <= 30 * t)%Z
  /\ (30 * (t - 1) < Z.of_nat (length rows) \/ t = 0%Z)%Z
  /\ (rows = [] <-> t = 0%Z).
Proof.
  cbv zeta. unfold StockTable.totalPages, StockTable.ITEMS_PER_PAGE.
  pose proof (Z_div_mod_eq_full (- Z.of_nat (length rows)) 30) as Hd.
  pose proof (Z.mod_pos_bound (- Z.of_nat (length rows)) 30 ltac:(lia)) as Hm.
  repeat split; try lia.
  - intros ->. reflexivity.
  - intros H. destruct rows; [reflexivity|]. simpl length in *. lia.
Qed.

Lemma paginated_page (A : Type) (rows : list A) (j : nat) :
  StockTable.paginated (Z.of_nat (S j)) rows = firstn 30 (skipn (30 * j) rows).
Proof.
  unfold StockTable.paginated, StockTable.ITEMS_PER_PAGE, jsSlice, sliceIndex.
  replace ((Z.of_nat (S j) - 1) * 30)%Z with (Z.of_nat (30 * j)) by lia.
  destruct (Z.ltb_spec (Z.of_nat (30 * j)) 0); [lia|].
  destruct (Z.ltb_spec (Z.of_nat (30 * j) + 30) 0); [lia|].
  destruct (Z.le_gt_cases (Z.of_nat (30 * j)) (Z.of_nat (length rows)))
    as [Hle|Hgt].
  - rewrite (Z.min_l (Z.of_nat (30 * j))) by lia. rewrite Nat2Z.id.
    destruct (Z.le_gt_cases (Z.of_nat (30 * j) + 30) (Z.of_nat (length rows))).
    + rewrite Z.min_l by lia. f_equal. lia.
    + rewrite Z.min_r by lia.
      rewrite !firstn_all2; [reflexivity | |]; rewrite length_skipn; lia.
  - rewrite !Z.min_r by lia. rewrite Z.sub_diag.
    rewrite (skipn_all2 rows (n := 30 * j)) by lia. now rewrite firstn_nil.
Qed.

Lemma pages_concat (A : Type) (rows : list A) (k : nat) :
  concat (map (fun j => StockTable.paginated (Z.of_nat (S j)) rows) (seq 0 k))
  = firstn (30 * k) rows.
Proof.
  induction k as [|k IH]; [reflexivity|].
  rewrite seq_S, map_app, concat_app, IH. cbn [map concat Nat.add].
  rewrite app_nil_r, paginated_page.
  replace (30 * S k) with (30 * k + 30) by lia. now rewrite firstn_add.
Qed.

Lemma paginated_length (A : Type) (rows : list A) (page : Z) :
  (1 <= page <= StockTable.totalPages rows)%Z ->
  1 <= length (StockTable.paginated page rows) <= 30.
Proof.
  destruct (totalPages_bounds rows) as (H0 & Hup & Hlow & _). cbv zeta in *.
  intros Hpage.
  replace page with (Z.of_nat (S (Z.to_nat (page - 1)))) by lia.
  rewrite paginated_page, length_firstn, length_skipn. lia.
Qed.

(** X19: the pages 1 to [totalPages] of the stock table, put end to end,
    are the rows in order; each of them holds between 1 and 30 rows, and a
    page after the last one is empty. *)
Theorem pages_cover_rows (A : Type) (rows : list A) :
  concat (map (fun j => StockTable.paginated (Z.of_nat (S j)) rows)
              (seq 0 (Z.to_nat (StockTable.totalPages rows))))
  = rows
  /\ (forall page, (1 <= page <= StockTable.totalPages rows)%Z ->
        1 <= length (StockTable.paginated page rows) <= 30)
  /\ (forall page, (StockTable.totalPages rows < page)%Z ->
        StockTable.paginated page rows = []).
Proof.
  destruct (totalPages_bounds rows) as (H0 & Hup & Hlow & _). cbv zeta in *.
  split; [|split].
  - rewrite pages_concat. apply firstn_all2. lia.
  - intros page Hpage. now apply paginated_length.
  - intros page Hpage.
    replace page with (Z.of_nat (S (Z.to_nat (page - 1)))) by lia.
    rewrite paginated_page, skipn_all2 by lia. apply firstn_nil.
Qed.

Lemma pages_cover_rows_witness :
  1 <= length (StockTable.paginated 2%Z (repeat tt 45)) <= 30.
Proof.
  apply (proj1 (proj2 (pages_cover_rows (repeat tt 45))) 2%Z).
  vm_compute. split; discriminate.
Defined.

(** X20: [goToPage] always lands on a page that exists: for a table with
    rows, the page it sets lies between 1 and [totalPages] and shows at
    least one row, and a page already in that range is kept; for an empty
    table it sets page 1. *)
Theorem goToPage_lands_on_a_page (A : Type) (rows : list A) (page : Z) :
  (rows <> [] ->
   (1 <= StockTable.goToPage rows page <= StockTable.totalPages rows)%Z
   /\ StockTable.paginated (StockTable.goToPage rows page) rows <> []
   /\ ((1 <= page <= StockTable.totalPages rows)%Z ->
       StockTable.goToPage rows page = page))
  /\ (rows = [] -> StockTable.goToPage rows page = 1%Z).
Proof.
  destruct (totalPages_bounds rows) as (H0 & Hup & Hlow & Hnil). cbv zeta in *.
  unfold StockTable.goToPage. split.
  - intros Hne.
    assert (Ht : (1 <= StockTable.totalPages rows)%Z).
    { destruct (Z.eq_dec (StockTable.totalPages rows) 0) as [E|E]; [|lia].
      apply Hnil in E. congruence. }
    split; [lia|]. split; [|lia].
    intros Hempty. apply (f_equal (@length A)) in Hempty.
    pose proof (@paginated_length A rows
                  (Z.max 1 (Z.min page (StockTable.totalPages rows)))
                  ltac:(lia)) as Hlen.
    rewrite Hempty in Hlen. simpl in Hlen. lia.
  - intros ->. vm_compute Z.min. destruct page; reflexivity.
Qed.

Lemma goToPage_lands_on_a_page_witness :
  (1 <= StockTable.goToPage (repeat tt 45) 7 <= StockTable.totalPages (repeat tt 45))%Z
  /\ StockTable.paginated (StockTable.goToPage (repeat tt 45) 7) (repeat tt 45)
     <> [].
Proof.
  destruct (proj1 (goToPage_lands_on_a_page (repeat tt 45) 7)) as (H1 & H2 & _).
  - discriminate.
  - split; [exact H1 | exact H2].
Defined.

(** ** Registers of the dashboard *)

(** X21: the register name under which the dashboard counts a sale is
    [Register1], [Register2] or the register of the sale itself; a name that
    holds both a 1 and a 2 counts as [Register1]; and the naming is stable:
    applied to its own result it changes nothing. *)
Theorem normalizedRegister_stable (register : jsstring) :
  (normalizedRegister register = JsString.lit "Register1"
   \/ normalizedRegister register = JsString.lit "Register2"
   \/ normalizedRegister register = register)
  /\ (JsString.includes (JsString.toLowerCase register) (JsString.lit "1") = true ->
      normalizedRegister register = JsString.lit "Register1")
  /\ normalizedRegister (normalizedRegister register)
     = normalizedRegister register.
Proof.
  unfold normalizedRegister at 1 2 3 4 5.
  destruct (JsString.includes (JsString.toLowerCase register) (JsString.lit "1")
            || JsString.includes (JsString.toLowerCase register)
                                 (JsString.lit "caisse1")) eqn:E1.
  - repeat split; auto.
    unfold normalizedRegister. now rewrite E1.
  - destruct (JsString.includes (JsString.toLowerCase register)
                                (JsString.lit "2")
              || JsString.includes (JsString.toLowerCase register)
                                   (JsString.lit "caisse2")) eqn:E2.
    + repeat split; auto.
      * intros H. rewrite H in E1. discriminate.
      * unfold normalizedRegister. now rewrite E1, E2.
    + repeat split; auto.
      * intros H. rewrite H in E1. discriminate.
      * unfold normalizedRegister. now rewrite E1, E2, E1, E2.
Qed.

Lemma normalizedRegister_stable_witness :
  normalizedRegister (JsString.lit "Caisse 12") = JsString.lit "Register1".
Proof.
  apply (proj1 (proj2 (normalizedRegister_stable (JsString.lit "Caisse 12")))).
  reflexivity.
Defined.

(** ** The second pass of the normalizer *)

Module FixFacts.
Import JsString.

Lemma normalChar_props (c : ascii) :
  normalChar c = true ->
  lowerChar c = c
  /\ (isWord c || isSpace c = true)
  /\ isWord c = negb (Ascii.eqb c " ")
  /\ isSpace c = Ascii.eqb c " ".
Proof.
  destruct c as [[] [] [] [] [] [] [] []]; intros H;
    try discriminate H; repeat split; reflexivity.
Qed.

Lemma filter_all (A : Type) (f : A -> bool) (l : list A) :
  Forall (fun x => f x = true) l -> filter f l = l.
Proof. induction 1 as [|x l Hx _ IH]; simpl; [reflexivity|]. now rewrite Hx, IH. Qed.

Lemma toLowerCase_Plain (s : jsstring) : Plain s -> toLowerCase s = s.
Proof.
  induction 1 as [|c s Hc _ IH]; simpl; [reflexivity|].
  now rewrite IH, (proj1 (normalChar_props _ Hc)).
Qed.

Lemma stripSpecial_Plain (s : jsstring) : Plain s -> stripSpecial s = s.
Proof.
  intros H. apply filter_all. unfold Plain in H. rewrite Forall_forall in *.
  intros c Hc. now apply normalChar_props, H.
Qed.

Lemma Plain_sub (s s' : jsstring) :
  (forall c, In c s' -> In c s) -> Plain s -> Plain s'.
Proof. unfold Plain. rewrite !Forall_forall. auto. Qed.

Lemma collapseSpaces_Plain (s : jsstring) (b : bool) :
  Plain s -> Plain (collapseSpaces b s).
Proof.
  unfold Plain. rewrite !Forall_forall. intros H c Hc.
  apply collapseSpaces_In in Hc as [->|[Hc _]]; [reflexivity | auto].
Qed.

Lemma Plain_SpacesOnly (s : jsstring) : Plain s -> SpacesOnly s.
Proof.
  unfold Plain, SpacesOnly. rewrite !Forall_forall. intros H c Hc Hs.
  destruct (normalChar_props _ (H c Hc)) as (_ & _ & _ & E).
  rewrite Hs in E. symmetry in E. now apply Ascii.eqb_eq in E.
Qed.

End FixFacts.

Module EndsFacts.
Import JsString.

Lemma trimStart_noop (s : jsstring) :
  (forall c r, s = c :: r -> isSpace c = false) -> trimStart s = s.
Proof.
  destruct s as [|c r]; [reflexivity|]. intros H. simpl.
  now rewrite (H c r eq_refl).
Qed.

Lemma trim_noop (s : jsstring) : EndsClean s -> trim s = s.
Proof.
  intros [Hh Hl]. unfold trim, trimEnd. rewrite (trimStart_noop Hh).
  rewrite trimStart_noop; [apply rev_involutive|].
  intros c r Hr. apply (Hl c (rev r)).
  rewrite <- (rev_involutive s), Hr. reflexivity.
Qed.

Lemma trim_EndsClean (s : jsstring) : EndsClean (trim s).
Proof.
  split; intros c r H;
    [exact (proj1 (@TrimFacts.trim_ends s r c) H)
    | exact (proj2 (@TrimFacts.trim_ends s r c) H)].
Qed.

Lemma collapseSpaces_snoc (s : jsstring) (c : ascii) (b : bool) :
  isSpace c = false ->
  collapseSpaces b (s ++ [c]) = collapseSpaces b s ++ [c].
Proof.
  intros Hc. revert b. induction s as [|x s IH]; intros b; simpl.
  - now rewrite Hc.
  - destruct (isSpace x); [destruct b|]; now rewrite IH.
Qed.

Lemma collapseSpaces_EndsClean (s : jsstring) :
  EndsClean s -> EndsClean (collapseSpaces false s).
Proof.
  intros [Hh Hl]. split.
  - destruct s as [|x s]; [discriminate|].
    simpl. rewrite (Hh x s eq_refl). intros c r H. injection H as <- _.
    exact (Hh x s eq_refl).
  - destruct s as [|x s'] eqn:Es; [intros c r H; now destruct r|].
    rewrite <- Es in *.
    destruct (@exists_last _ s) as (r0 & c0 & Hs); [congruence|].
    pose proof (Hl c0 r0 Hs) as Hc0.
    rewrite Hs, collapseSpaces_snoc by assumption.
    intros c r H. apply app_inj_tail in H as [_ <-]. exact Hc0.
Qed.

Lemma collapseSpaces_idem (s : jsstring) (b : bool) :
  collapseSpaces b (collapseSpaces b s) = collapseSpaces b s.
Proof.
  revert b. induction s as [|c s IH]; intros b; simpl; [reflexivity|].
  destruct (isSpace c) eqn:E.
  - destruct b; [apply IH|]. simpl. now rewrite IH.
  - simpl. now rewrite E, IH.
Qed.
End EndsFacts.

Module SplitFacts.
Import JsString.

Lemma split_space (s : jsstring) : split " " (" "%char :: s) = [] :: split " " s.
Proof. reflexivity. Qed.

Lemma split_other (c : ascii) (s : jsstring) :
  Ascii.eqb c " " = false ->
  split " " (c :: s) = (c :: hd [] (split " " s)) :: tl (split " " s).
Proof. intros H. simpl. rewrite H. now destruct (split " " s). Qed.

Lemma split_not_nil (s : jsstring) : split " " s <> [].
Proof.
  destruct s as [|c s]; simpl; [discriminate|].
  destruct (Ascii.eqb c " "); [discriminate|].
  destruct (split " " s); discriminate.
Qed.

Lemma split_hd_tl (s : jsstring) :
  split " " s = hd [] (split " " s) :: tl (split " " s).
Proof. pose proof (split_not_nil s). now destruct (split " " s). Qed.

Lemma join_cons (w : jsstring) (ws : list jsstring) :
  ws <> [] -> joinWords (w :: ws) = w ++ " "%char :: joinWords ws.
Proof. destruct ws as [|v rest]; [congruence|]. reflexivity. Qed.

Lemma join_split (s : jsstring) : joinWords (split " " s) = s.
Proof.
  induction s as [|c s IH]; [reflexivity|].
  destruct (Ascii.eqb c " ") eqn:E.
  - apply Ascii.eqb_eq in E. subst c. rewrite split_space.
    rewrite join_cons by apply split_not_nil. now rewrite IH.
  - rewrite split_other by assumption.
    pose proof (split_not_nil s) as Hn.
    destruct (split " " s) as [|h t]; [congruence|]. cbn [hd tl].
    rewrite <- IH. now destruct t.
Qed.

Lemma split_app_space (a b : jsstring) :
  split " " (a ++ " "%char :: b) = split " " a ++ split " " b.
Proof.
  induction a as [|c a IH]; [reflexivity|].
  rewrite <- app_comm_cons. destruct (Ascii.eqb c " ") eqn:E.
  - apply Ascii.eqb_eq in E. subst c. now rewrite !split_space, IH.
  - rewrite !split_other, IH by assumption.
    rewrite (split_hd_tl a) at 1 2. reflexivity.
Qed.

(** A word without a space is a single piece. *)
Lemma split_word (w : jsstring) :
  Forall (fun c => Ascii.eqb c " " = false) w -> split " " w = [w].
Proof.
  induction 1 as [|c w Hc _ IH]; [reflexivity|].
  now rewrite split_other, IH.
Qed.

Lemma split_join (ws : list jsstring) :
  ws <> [] ->
  Forall (Forall (fun c => Ascii.eqb c " " = false)) ws ->
  split " " (joinWords ws) = ws.
Proof.
  induction ws as [|w ws IH]; [congruence|]. intros _ Hws.
  inversion Hws as [|? ? Hw Hrest]; subst.
  destruct ws as [|v rest].
  - simpl. rewrite app_nil_r. now apply split_word.
  - rewrite join_cons by discriminate.
    rewrite split_app_space, split_word, IH by (assumption || discriminate).
    reflexivity.
Qed.

(** The characters of a piece are characters of the string, and no
    spaces. *)
Lemma split_chars (s w : jsstring) (c : ascii) :
  In w (split " " s) -> In c w -> In c s /\ Ascii.eqb c " " = false.
Proof.
  revert w. induction s as [|x s IH]; intros w.
  - simpl. intros [<-|[]] [].
  - destruct (Ascii.eqb x " ") eqn:E.
    + apply Ascii.eqb_eq in E. subst x. rewrite split_space.
      intros [<-|Hw] Hc; [destruct Hc|].
      destruct (IH w Hw Hc). split; [now right | assumption].
    + rewrite split_other by assumption. rewrite (split_hd_tl s) in IH.
      intros [<-|Hw] Hc.
      * destruct Hc as [<-|Hc]; [split; [now left | assumption]|].
        destruct (IH _ (or_introl eq_refl) Hc). split; [now right | assumption].
      * destruct (IH w (or_intror Hw) Hc). split; [now right | assumption].
Qed.

Lemma split_trimStart (s w : jsstring) :
  SpacesOnly s -> In w (split " " (trimStart s)) -> In w (split " " s).
Proof.
  induction 1 as [|c s Hc _ IH]; [auto|]. simpl trimStart.
  destruct (isSpace c) eqn:E; [|auto].
  rewrite (Hc eq_refl), split_space. intros H. right. auto.
Qed.

Lemma split_trimEnd (s w : jsstring) :
  SpacesOnly s -> In w (split " " (trimEnd s)) -> In w (split " " s).
Proof.
  intros Hs Hw. destruct (TrimFacts.trimEnd_split s) as (post & Hpost & Heq).
  rewrite Heq. destruct post as [|c post]; [now rewrite app_nil_r|].
  assert (Hc : c = " "%char).
  { unfold SpacesOnly in Hs. rewrite Forall_forall in Hs. apply Hs.
    - rewrite Heq. apply in_or_app. right. now left.
    - now inversion Hpost. }
  subst c. rewrite split_app_space. apply in_or_app. now left.
Qed.

Lemma split_trim (s w : jsstring) :
  SpacesOnly s -> In w (split " " (trim s)) -> In w (split " " s).
Proof.
  intros Hs Hw. unfold trim in Hw. apply split_trimStart; [assumption|].
  apply split_trimEnd; [|assumption].
  apply (NormalizeFacts.SpacesOnly_sub (s := s)); [|assumption].
  intros c. apply NormalizeFacts.trimStart_In.
Qed.

Lemma split_collapse_hd (s : jsstring) :
  SpacesOnly s ->
  hd [] (split " " (collapseSpaces false s)) = hd [] (split " " s).
Proof.
  induction 1 as [|c s Hc Hs IH]; [reflexivity|]. simpl collapseSpaces.
  destruct (isSpace c) eqn:E.
  - now rewrite (Hc eq_refl), !split_space.
  - assert (Ec : Ascii.eqb c " " = false).
    { destruct (Ascii.eqb c " ") eqn:E'; [|reflexivity].
      apply Ascii.eqb_eq in E'. subst c. discriminate. }
    rewrite !split_other by assumption. simpl. now rewrite IH.
Qed.

Lemma split_collapse (s w : jsstring) :
  SpacesOnly s ->
  (In w (tl (split " " (collapseSpaces false s))) ->
   w = [] \/ In w (tl (split " " s)))
  /\ (In w (split " " (collapseSpaces true s)) ->
      w = [] \/ In w (split " " s)).
Proof.
  induction 1 as [|c s Hc Hs [IHt IHu]]; [simpl; tauto|].
  simpl collapseSpaces. destruct (isSpace c) eqn:E.
  - rewrite (Hc eq_refl), !split_space. simpl tl. split.
    + exact IHu.
    + intros H. apply IHu in H. simpl. tauto.
  - assert (Ec : Ascii.eqb c " " = false).
    { destruct (Ascii.eqb c " ") eqn:E'; [|reflexivity].
      apply Ascii.eqb_eq in E'. subst c. discriminate. }
    rewrite !split_other by assumption. simpl tl. split; [exact IHt|].
    intros [<-|H].
    + right. left. now rewrite split_collapse_hd.
    + apply IHt in H. simpl. tauto.
Qed.

Lemma split_collapse_In (s w : jsstring) :
  SpacesOnly s ->
  In w (split " " (collapseSpaces false s)) -> w = [] \/ In w (split " " s).
Proof.
  intros Hs. rewrite (split_hd_tl (collapseSpaces false s)), (split_hd_tl s).
  intros [<-|H].
  - right. left. symmetry. now apply split_collapse_hd.
  - apply (split_collapse w Hs) in H. simpl. tauto.
Qed.

End SplitFacts.

Module ScanFacts.
Import JsString.

Lemma TailOK_cons (c : ascii) (t : jsstring) :
  TailOK (c :: t) <-> isWord c = false.
Proof. unfold TailOK. simpl. destruct (isWord c); split; congruence. Qed.

Lemma dropPrefix_spec (p s r : jsstring) :
  dropPrefix p s = Some r <-> s = p ++ r.
Proof.
  revert s. induction p as [|x p IH]; intros s; simpl.
  - split; congruence.
  - destruct s as [|y s]; [split; discriminate|].
    destruct (Ascii.eqb x y) eqn:E.
    + apply Ascii.eqb_eq in E. subst y. rewrite IH. split; congruence.
    + apply Ascii.eqb_neq in E. split; [discriminate | congruence].
Qed.

Lemma word_prefix_unique (a a' b b' : jsstring) :
  WordStr a -> WordStr a' -> TailOK b -> TailOK b' ->
  a ++ b = a' ++ b' -> a = a' /\ b = b'.
Proof.
  intros Ha. revert a'. induction Ha as [|x a Hx _ IH]; intros a' Ha' Hb Hb' E.
  - destruct Ha' as [|y a' Hy _]; [auto|]. simpl in E. subst b.
    apply TailOK_cons in Hb. congruence.
  - destruct Ha' as [|y a' Hy Ha']; simpl in E.
    + subst b'. apply TailOK_cons in Hb'. congruence.
    + injection E as -> E. destruct (IH a' Ha' Hb Hb' E) as [-> ->]. auto.
Qed.

Lemma WordStr_app (a b : jsstring) : WordStr a -> WordStr b -> WordStr (a ++ b).
Proof. apply Forall_app_2 || (intros; apply Forall_app; auto). Qed.

Lemma matchAlt_word (d w tail : jsstring) :
  WordStr d -> WordStr w -> TailOK tail ->
  matchAlt d (w ++ tail)
  = if eqb w d then Some (length d)
    else if eqb w (d ++ ["s"%char]) then Some (S (length d)) else None.
Proof.
  intros Hd Hw Ht.
  assert (Hds : WordStr (d ++ ["s"%char])).
  { apply WordStr_app; [assumption|]. now repeat constructor. }
  unfold matchAlt. destruct (dropPrefix d (w ++ tail)) as [r1|] eqn:E.
  - apply dropPrefix_spec in E. destruct r1 as [|c r2].
    + assert (Hnil : TailOK []) by reflexivity.
      destruct (word_prefix_unique Hw Hd Ht Hnil E) as [-> _].
      now rewrite JsStringFacts.eqb_refl.
    + destruct (Ascii.eqb c "s" && wordBoundary true r2) eqn:Es.
      * apply andb_true_iff in Es as [Ec Hr2]. apply Ascii.eqb_eq in Ec.
        subst c. change (d ++ "s"%char :: r2) with (d ++ ["s"%char] ++ r2) in E.
        rewrite app_assoc in E.
        destruct (word_prefix_unique Hw Hds Ht Hr2 E) as [-> _].
        rewrite JsStringFacts.eqb_refl.
        destruct (eqb (d ++ ["s"%char]) d) eqn:Ed; [|reflexivity].
        apply JsStringFacts.eqb_eq in Ed.
        apply (f_equal (@length ascii)) in Ed. rewrite length_app in Ed.
        simpl in Ed. lia.
      * destruct (wordBoundary true (c :: r2)) eqn:Eb.
        -- destruct (word_prefix_unique Hw Hd Ht Eb E) as [-> _].
           now rewrite JsStringFacts.eqb_refl.
        -- destruct (eqb w d) eqn:Ewd.
           { apply JsStringFacts.eqb_eq in Ewd. subst w.
             apply app_inv_head in E. subst tail.
             unfold TailOK in Ht. congruence. }
           destruct (eqb w (d ++ ["s"%char])) eqn:Ews; [|reflexivity].
           apply JsStringFacts.eqb_eq in Ews. subst w.
           rewrite <- app_assoc in E. apply app_inv_head in E.
           simpl in E. injection E as <- <-.
           unfold TailOK in Ht. rewrite Ht in Es. discriminate.
  - destruct (eqb w d) eqn:Ewd.
    { apply JsStringFacts.eqb_eq in Ewd. subst w.
      assert (H : dropPrefix d (d ++ tail) = Some tail)
        by now apply dropPrefix_spec.
      congruence. }
    destruct (eqb w (d ++ ["s"%char])) eqn:Ews; [|reflexivity].
    apply JsStringFacts.eqb_eq in Ews. subst w.
    assert (H : dropPrefix d ((d ++ ["s"%char]) ++ tail)
                = Some ("s"%char :: tail))
      by (apply dropPrefix_spec; now rewrite <- app_assoc).
    congruence.
Qed.

Lemma matchNoise_word (w tail : jsstring) :
  w <> [] -> WordStr w -> TailOK tail ->
  matchNoise false (w ++ tail)
  = if isNoise w then Some (length w) else None.
Proof.
  intros Hne Hw Ht. unfold matchNoise.
  assert (Hb : wordBoundary false (w ++ tail) = true).
  { destruct Hw as [|c w Hc _]; [congruence|]. simpl. exact Hc. }
  rewrite Hb.
  rewrite !matchAlt_word by (assumption || now repeat constructor).
  unfold isNoise. cbn [existsb].
  change (lit "100" ++ ["s"%char]) with (lit "100s").
  change (lit "20" ++ ["s"%char]) with (lit "20s").
  change (lit "25" ++ ["s"%char]) with (lit "25s").
  repeat match goal with
         | |- context [eqb w ?l] =>
             let E := fresh "E" in
             destruct (eqb w l) eqn:E;
             [apply JsStringFacts.eqb_eq in E; subst w; reflexivity|]
         end.
  reflexivity.
Qed.

Lemma matchNoise_in_word (c : ascii) (s : jsstring) :
  isWord c = true -> matchNoise true (c :: s) = None.
Proof. intros H. unfold matchNoise. simpl. now rewrite H. Qed.

Lemma matchAlt_nonword (d : jsstring) (c : ascii) (t : jsstring) :
  d <> [] -> WordStr d -> isWord c = false -> matchAlt d (c :: t) = None.
Proof.
  intros Hne Hd Hc. destruct Hd as [|x d Hx _]; [congruence|].
  unfold matchAlt. simpl. destruct (Ascii.eqb x c) eqn:E; [|reflexivity].
  apply Ascii.eqb_eq in E. congruence.
Qed.

Lemma stripNoise_nonword (p : bool) (c : ascii) (t : jsstring) :
  isWord c = false -> stripNoise p 0 (c :: t) = c :: stripNoise false 0 t.
Proof.
  intros Hc. cbn [stripNoise].
  assert (Hm : matchNoise p (c :: t) = None).
  { unfold matchNoise. destruct (wordBoundary p (c :: t)); [|reflexivity].
    now rewrite !matchAlt_nonword
      by (assumption || discriminate || now repeat constructor). }
  now rewrite Hm, Hc.
Qed.

Lemma stripNoise_tail (tail : jsstring) :
  TailOK tail -> stripNoise true 0 tail = stripNoise false 0 tail.
Proof.
  destruct tail as [|c t]; [reflexivity|]. intros H.
  apply TailOK_cons in H. now rewrite !stripNoise_nonword.
Qed.

Lemma stripNoise_in_word (w tail : jsstring) :
  WordStr w -> stripNoise true 0 (w ++ tail) = w ++ stripNoise true 0 tail.
Proof.
  induction 1 as [|c w Hc _ IH]; [reflexivity|].
  rewrite <- app_comm_cons. cbn [stripNoise].
  now rewrite matchNoise_in_word, Hc, IH.
Qed.

Lemma stripNoise_skip (u tail : jsstring) (p : bool) :
  WordStr u -> u <> [] \/ p = true ->
  stripNoise p (length u) (u ++ tail) = stripNoise true 0 tail.
Proof.
  intros Hu. revert p. induction Hu as [|c u Hc _ IH]; intros p Hp.
  - destruct Hp as [Hp | ->]; [congruence | reflexivity].
  - cbn [length]. rewrite <- app_comm_cons. cbn [stripNoise].
    rewrite Hc. apply IH. now right.
Qed.

(** The scan over one word and what follows it. *)
Lemma stripNoise_word (w tail : jsstring) :
  WordStr w -> TailOK tail ->
  stripNoise false 0 (w ++ tail) = stripWord w ++ stripNoise false 0 tail.
Proof.
  intros Hw Ht. destruct w as [|c w'] eqn:Ew; [reflexivity|].
  rewrite <- Ew in *. assert (Hne : w <> []) by (rewrite Ew; discriminate).
  pose proof (matchNoise_word Hne Hw Ht) as Hm.
  assert (Hc : isWord c = true) by (rewrite Ew in Hw; now inversion Hw).
  assert (Hw' : WordStr w') by (rewrite Ew in Hw; now inversion Hw).
  unfold stripWord. rewrite Ew in Hm |- *. rewrite <- app_comm_cons in *.
  cbn [stripNoise]. rewrite Hm.
  destruct (isNoise (c :: w')).
  - cbn [length]. rewrite Hc, stripNoise_skip by (assumption || now right).
    now rewrite stripNoise_tail.
  - rewrite Hc, stripNoise_in_word by assumption.
    now rewrite stripNoise_tail.
Qed.

Lemma stripNoise_join (ws : list jsstring) :
  Forall WordStr ws ->
  stripNoise false 0 (joinWords ws) = joinWords (map stripWord ws).
Proof.
  induction 1 as [|w ws Hw Hws IH]; [reflexivity|].
  destruct ws as [|v rest].
  - simpl. rewrite !app_nil_r.
    rewrite <- (app_nil_r w) at 1. rewrite stripNoise_word by easy.
    simpl. now rewrite app_nil_r.
  - rewrite SplitFacts.join_cons by discriminate.
    rewrite stripNoise_word by (assumption || reflexivity).
    rewrite stripNoise_nonword by reflexivity. rewrite IH.
    cbn [map]. symmetry. apply SplitFacts.join_cons. discriminate.
Qed.

End ScanFacts.

Module PassFacts.
Import JsString.

Lemma Plain_words (s : jsstring) :
  Plain s -> Forall WordStr (split " " s).
Proof.
  intros Hs. apply Forall_forall. intros w Hw. apply Forall_forall. intros c Hc.
  destruct (@SplitFacts.split_chars s w c Hw Hc) as [Hin Hns].
  unfold Plain in Hs. rewrite Forall_forall in Hs.
  destruct (@FixFacts.normalChar_props c (Hs c Hin)) as (_ & _ & E & _).
  now rewrite E, Hns.
Qed.

Lemma stripNoise_words (s : jsstring) :
  Plain s ->
  stripNoise false 0 s = joinWords (map stripWord (split " " s)).
Proof.
  intros Hs. rewrite <- (SplitFacts.join_split s) at 1.
  now apply ScanFacts.stripNoise_join, Plain_words.
Qed.

Lemma stripWord_quiet (w : jsstring) : isNoise (stripWord w) = false.
Proof. unfold stripWord. now destruct (isNoise w) eqn:E. Qed.

(** Without a noise word the scan changes nothing. *)
Lemma stripNoise_Quiet (s : jsstring) :
  Plain s -> Quiet s -> stripNoise false 0 s = s.
Proof.
  intros Hs Hq. rewrite stripNoise_words by assumption.
  rewrite <- (SplitFacts.join_split s) at 2. f_equal.
  rewrite <- (map_id (split " " s)) at 2. apply map_ext_in.
  intros w Hw. unfold Quiet in Hq. rewrite Forall_forall in Hq.
  unfold stripWord. now rewrite (Hq w Hw).
Qed.

(** After the scan no noise word is left. *)
Lemma stripNoise_makes_Quiet (s : jsstring) :
  Plain s -> Quiet (stripNoise false 0 s).
Proof.
  intros Hs. unfold Quiet. rewrite stripNoise_words by assumption.
  rewrite SplitFacts.split_join.
  - apply Forall_forall. intros w Hw. apply in_map_iff in Hw as (v & <- & _).
    apply stripWord_quiet.
  - pose proof (SplitFacts.split_not_nil s). now destruct (split " " s).
  - apply Forall_forall. intros w Hw. apply in_map_iff in Hw as (v & <- & Hv).
    unfold stripWord. destruct (isNoise v); [constructor|].
    apply Forall_forall. intros c Hc.
    exact (proj2 (@SplitFacts.split_chars s v c Hv Hc)).
Qed.

Lemma Quiet_trim (s : jsstring) : SpacesOnly s -> Quiet s -> Quiet (trim s).
Proof.
  unfold Quiet. rewrite !Forall_forall. intros Hs Hq w Hw.
  apply Hq. now apply SplitFacts.split_trim.
Qed.

Lemma Quiet_collapse (s : jsstring) :
  SpacesOnly s -> Quiet s -> Quiet (collapseSpaces false s).
Proof.
  unfold Quiet. rewrite !Forall_forall. intros Hs Hq w Hw.
  apply SplitFacts.split_collapse_In in Hw as [->|Hw]; [reflexivity| |];
    auto.
Qed.

End PassFacts.

(** The string handed to the scan in [normalizeProductName]. *)
Lemma beforeNoise_Plain (name' : jsstring) :
  Plain (JsString.stripSpecial
           (JsString.collapseSpaces false
              (JsString.trim (JsString.toLowerCase name')))).
Proof.
  apply Forall_forall. intros c Hc.
  apply filter_In in Hc as [Hc Hkeep].
  apply collapseSpaces_In in Hc as [->|[Hc Hns]]; [reflexivity|].
  apply NormalizeFacts.trim_In in Hc.
  apply in_map_iff in Hc as (x & <- & _).
  unfold normalChar. rewrite Hns, orb_false_r in Hkeep.
  now rewrite Hkeep, TrimFacts.lowerChar_not_upper.
Qed.

Lemma normalizeProductName_invariants (name' : jsstring) :
  Plain (normalizeProductName name')
  /\ Quiet (normalizeProductName name')
  /\ EndsClean (normalizeProductName name').
Proof.
  pose proof (beforeNoise_Plain name') as Hz. unfold normalizeProductName.
  set (z := JsString.stripSpecial _) in *.
  assert (Hsn : Plain (JsString.stripNoise false 0 z)).
  { apply (FixFacts.Plain_sub (s := z)); [|assumption].
    intros c. apply NormalizeFacts.stripNoise_In. }
  split; [|split].
  - apply (FixFacts.Plain_sub (s := JsString.stripNoise false 0 z));
      [intros c; apply NormalizeFacts.trim_In | assumption].
  - apply PassFacts.Quiet_trim; [now apply FixFacts.Plain_SpacesOnly|].
    now apply PassFacts.stripNoise_makes_Quiet.
  - apply EndsFacts.trim_EndsClean.
Qed.

(** On a clean name the normalizer only collapses the runs of spaces. *)
Lemma normalizeProductName_clean (s : jsstring) :
  Plain s -> Quiet s -> EndsClean s ->
  normalizeProductName s = JsString.collapseSpaces false s.
Proof.
  intros Hp Hq He. unfold normalizeProductName.
  rewrite FixFacts.toLowerCase_Plain by assumption.
  rewrite (EndsFacts.trim_noop He).
  pose proof (@FixFacts.collapseSpaces_Plain s false Hp) as Hcp.
  rewrite FixFacts.stripSpecial_Plain by assumption.
  rewrite PassFacts.stripNoise_Quiet;
    [| assumption
     | apply PassFacts.Quiet_collapse;
       [now apply FixFacts.Plain_SpacesOnly | assumption]].
  apply EndsFacts.trim_noop. now apply EndsFacts.collapseSpaces_EndsClean.
Qed.

(** X22: the second pass of the normalizer only collapses the runs of
    spaces that the first pass left, and its result is a fixed point: a
    third pass changes nothing. *)
Theorem normalizeProductName_settles (name' : jsstring) :
  normalizeProductName (normalizeProductName name')
  = JsString.collapseSpaces false (normalizeProductName name')
  /\ normalizeProductName
       (normalizeProductName (normalizeProductName name'))
     = normalizeProductName (normalizeProductName name').
Proof.
  destruct (normalizeProductName_invariants name') as (Hp & Hq & He).
  assert (H2 : normalizeProductName (normalizeProductName name')
               = JsString.collapseSpaces false (normalizeProductName name'))
    by now apply normalizeProductName_clean.
  split; [exact H2|]. rewrite H2.
  rewrite normalizeProductName_clean.
  - apply EndsFacts.collapseSpaces_idem.
  - now apply FixFacts.collapseSpaces_Plain.
  - apply PassFacts.Quiet_collapse;
      [now apply FixFacts.Plain_SpacesOnly | assumption].
  - now apply EndsFacts.collapseSpaces_EndsClean.
Qed.
